(** * Sentiment Aura front end: audio encoding, reconnect policy, sentiment coordinator

    A shallow embedding of the React front end:

    - [Audio]: [convertFloat32ToInt16] of [utils/audioUtils.js] and the
      inline conversion loop of [startAudioStreaming] in
      [hooks/useDeepgram.js];
    - [Deepgram]: the [onopen] / [onclose] / [handleReconnect] /
      [disconnect] handlers of [hooks/useDeepgram.js];
    - [Sentiment]: the [processText] and [clearData] callbacks of
      [hooks/useSentimentProcessor.js], with the debounce timer, processing
      lock, request queue, retry loop and response handling;
    - [App]: the effect of the application component that consumes the
      keywords;
    - [AudioUtils], [AudioDecode], [AudioFormat]: [chunkAudioData],
      [debounce], [convertInt16ToFloat32] and [formatDuration] of
      [utils/audioUtils.js];
    - [AudioCapture]: [startCapture] and [stopCapture] of the microphone
      hook.

    JavaScript numbers are modelled by exact rationals extended with the
    two infinities and NaN; the event loop is modelled by explicit events
    (a call, a timer that fires, a request that settles) applied to a
    record holding the hook's [useState] cells and [useRef] cells. *)

From Stdlib Require Import ZArith QArith Qpower Lia Lqa Bool.
From Stdlib Require Import Ascii String DecimalString.
From stdpp Require Import base list strings.

Local Open Scope Z_scope.

(** ** JavaScript numbers *)

Module JsNumber.

(** A Number value.  [Fin q] is a finite value (the sign of zero is not
    tracked: no operation used here tells [+0] from [-0]). *)
Inductive Number : Type :=
| Fin (q : Q)
| PosInf
| NegInf
| NaN.

(** The relational operator [a < b]; false as soon as one side is NaN. *)
Definition lt (a b : Number) : bool :=
  match a, b with
  | NaN, _ | _, NaN => false
  | Fin x, Fin y => if Qlt_le_dec x y then true else false
  | NegInf, (Fin _ | PosInf) => true
  | Fin _, PosInf => true
  | _, _ => false
  end.

(** [Math.min(a, b)] and [Math.max(a, b)]: NaN if either argument is. *)
Definition min (a b : Number) : Number :=
  match a, b with
  | NaN, _ | _, NaN => NaN
  | _, _ => if lt b a then b else a
  end.

Definition max (a b : Number) : Number :=
  match a, b with
  | NaN, _ | _, NaN => NaN
  | _, _ => if lt a b then b else a
  end.

Definition isZero (q : Q) : bool := Qeq_bool q 0.
Definition isNeg (q : Q) : bool := if Qlt_le_dec q 0 then true else false.

(** The product [a * b]. *)
Definition mul (a b : Number) : Number :=
  match a, b with
  | NaN, _ | _, NaN => NaN
  | Fin x, Fin y => Fin (x * y)
  | Fin x, PosInf | PosInf, Fin x =>
      if isZero x then NaN else if isNeg x then NegInf else PosInf
  | Fin x, NegInf | NegInf, Fin x =>
      if isZero x then NaN else if isNeg x then PosInf else NegInf
  | PosInf, PosInf | NegInf, NegInf => PosInf
  | PosInf, NegInf | NegInf, PosInf => NegInf
  end.

(** [truncate(q)]: the integer part, rounding toward zero. *)
Definition truncate (q : Q) : Z := Z.quot (Qnum q) (Zpos (Qden q)).

(** ECMAScript [ToInt16], applied when a Number is stored into an
    [Int16Array]: NaN and the infinities give 0, a finite value is
    truncated and reduced modulo 2^16 into [-2^15, 2^15). *)
Definition ToInt16 (v : Number) : Z :=
  match v with
  | Fin q =>
      let int16bit := (truncate q) mod 65536 in
      if 32768 <=? int16bit then int16bit - 65536 else int16bit
  | _ => 0
  end.

Definition ofZ (z : Z) : Number := Fin (inject_Z z).

End JsNumber.

(** ** [utils/audioUtils.js] and the audio callback of [useDeepgram.js] *)

Module Audio.
Import JsNumber.

(** The body of the conversion loop for one sample:
    [const sample = Math.max(-1, Math.min(1, buffer[i]))] followed by
    [int16Buffer[i] = sample < 0 ? sample * 0x8000 : sample * 0x7FFF]. *)
Definition clamp (x : Number) : Number := max (ofZ (-1)) (min (ofZ 1) x).

Definition scale (sample : Number) : Number :=
  if lt sample (ofZ 0) then mul sample (ofZ 0x8000) else mul sample (ofZ 0x7FFF).

Definition encodeSample (x : Number) : Z := ToInt16 (scale (clamp x)).

(** The [for (let i = 0; i < buffer.length; i++)] loop, writing into the
    zero-filled [Int16Array] one index at a time. *)
Fixpoint convertLoop (fuel i : nat) (buffer : list Number) (int16Buffer : list Z)
  : list Z :=
  match fuel with
  | O => int16Buffer
  | S fuel' =>
      if (i <? length buffer)%nat then
        let sample := clamp (nth i buffer NaN) in
        convertLoop fuel' (S i) buffer (<[i := ToInt16 (scale sample)]> int16Buffer)
      else int16Buffer
  end.

(** [convertFloat32ToInt16(buffer)]; the argument type already excludes
    what the [instanceof Float32Array] guard rejects. *)
Definition convertFloat32ToInt16 (buffer : list Number) : list Z :=
  let int16Buffer := replicate (length buffer) 0 in
  convertLoop (length buffer) 0 buffer int16Buffer.

(** The [onaudioprocess] callback of [startAudioStreaming], which repeats
    the same loop on [inputData] before sending [output.buffer]. *)
Fixpoint streamLoop (fuel i : nat) (inputData : list Number) (output : list Z)
  : list Z :=
  match fuel with
  | O => output
  | S fuel' =>
      if (i <? length inputData)%nat then
        let s := max (ofZ (-1)) (min (ofZ 1) (nth i inputData NaN)) in
        streamLoop fuel' (S i) inputData
          (<[i := ToInt16 (if lt s (ofZ 0) then mul s (ofZ 0x8000) else mul s (ofZ 0x7FFF))]> output)
      else output
  end.

Definition onaudioprocess (inputData : list Number) : list Z :=
  streamLoop (length inputData) 0 inputData (replicate (length inputData) 0).

(** The encoder in the words of the specification: a sample is first
    clamped to [-1, 1], then a negative sample is scaled by 32768 and a
    non-negative one by 32767. *)
Definition clampSpec (x : Number) : Number :=
  match x with
  | Fin q =>
      if Qlt_le_dec q 1
      then (if Qlt_le_dec (-1) q then Fin q else Fin (-1))
      else Fin 1
  | PosInf => Fin 1
  | NegInf => Fin (-1)
  | NaN => NaN
  end.

Definition scaleSpec (x : Number) : Number :=
  match x with
  | Fin q => if Qlt_le_dec q 0 then Fin (q * 32768) else Fin (q * 32767)
  | other => other
  end.

Definition encodeSpec (x : Number) : Z := ToInt16 (scaleSpec (clampSpec x)).

End Audio.

(** ** [hooks/useDeepgram.js]: connection handlers and reconnect policy *)

Module Deepgram.

(** The hook's state cells and refs.  [timers] holds the pending
    [setTimeout] callbacks created by [handleReconnect] (identifier and
    delay in milliseconds); [reconnectTimeout] is the ref that remembers
    the latest identifier; [scheduled] records every delay passed to
    [setTimeout], oldest first.  [ws] and [streaming] say whether
    [ws.current] and the audio graph ([processor], [audioContext]) are
    set. *)
Record State : Type := mkState {
  isConnected : bool;
  error : option string;
  transcript : string;
  ws : bool;
  streaming : bool;
  reconnectTimeout : option nat;
  reconnectAttempts : nat;
  timers : list (nat * Z);
  nextTimerId : nat;
  scheduled : list Z
}.

Definition set_isConnected (v : bool) (s : State) : State :=
  mkState v (error s) (transcript s) (ws s) (streaming s)
    (reconnectTimeout s) (reconnectAttempts s) (timers s) (nextTimerId s)
    (scheduled s) .
Definition set_error (v : option string) (s : State) : State :=
  mkState (isConnected s) v (transcript s) (ws s) (streaming s)
    (reconnectTimeout s) (reconnectAttempts s) (timers s) (nextTimerId s)
    (scheduled s) .
Definition set_transcript (v : string) (s : State) : State :=
  mkState (isConnected s) (error s) v (ws s) (streaming s)
    (reconnectTimeout s) (reconnectAttempts s) (timers s) (nextTimerId s)
    (scheduled s) .
Definition set_ws (v : bool) (s : State) : State :=
  mkState (isConnected s) (error s) (transcript s) v (streaming s)
    (reconnectTimeout s) (reconnectAttempts s) (timers s) (nextTimerId s)
    (scheduled s) .
Definition set_streaming (v : bool) (s : State) : State :=
  mkState (isConnected s) (error s) (transcript s) (ws s) v
    (reconnectTimeout s) (reconnectAttempts s) (timers s) (nextTimerId s)
    (scheduled s) .
Definition set_reconnectTimeout (v : option nat) (s : State) : State :=
  mkState (isConnected s) (error s) (transcript s) (ws s) (streaming s) v
    (reconnectAttempts s) (timers s) (nextTimerId s) (scheduled s) .
Definition set_reconnectAttempts (v : nat) (s : State) : State :=
  mkState (isConnected s) (error s) (transcript s) (ws s) (streaming s)
    (reconnectTimeout s) v (timers s) (nextTimerId s) (scheduled s) .
Definition set_timers (v : list (nat * Z)) (s : State) : State :=
  mkState (isConnected s) (error s) (transcript s) (ws s) (streaming s)
    (reconnectTimeout s) (reconnectAttempts s) v (nextTimerId s)
    (scheduled s) .
Definition set_nextTimerId (v : nat) (s : State) : State :=
  mkState (isConnected s) (error s) (transcript s) (ws s) (streaming s)
    (reconnectTimeout s) (reconnectAttempts s) (timers s) v (scheduled s) .
Definition set_scheduled (v : list Z) (s : State) : State :=
  mkState (isConnected s) (error s) (transcript s) (ws s) (streaming s)
    (reconnectTimeout s) (reconnectAttempts s) (timers s) (nextTimerId s) v.

Definition init : State :=
  mkState false None "" false false None 0 [] 0 [].

Inductive Event : Type :=
| Connect                     (* [connect(audioStream)] called by the application *)
| Open                        (* [ws.onopen] *)
| Message (transcriptText : string)  (* [ws.onmessage] with a parsed transcript *)
| SocketError                 (* [ws.onerror] *)
| Close (code : Z)            (* [ws.onclose] with [event.code] *)
| TimerFire (id : nat)        (* a pending reconnect timer expires *)
| Disconnect.                 (* [disconnect()] *)

Section Handlers.
(** The [apiKey] prop of the hook. *)
Variable apiKey : string.

Definition connect (s : State) : State :=
  let s := set_error None s in
  if String.eqb apiKey "" then
    set_isConnected false (set_error (Some "Deepgram API key is required") s)
  else set_ws true s.

Definition onopen (s : State) : State :=
  set_streaming true
    (set_reconnectAttempts 0%nat (set_error None (set_isConnected true s))).

Definition onmessage (transcriptText : string) (s : State) : State :=
  if String.eqb transcriptText "" then s else set_transcript transcriptText s.

Definition onerror (s : State) : State :=
  set_error (Some "Connection error occurred") s.

Definition stopAudioStreaming (s : State) : State := set_streaming false s.

(** [handleReconnect]: the counter is incremented first, the delay is
    computed from the incremented value. *)
Definition handleReconnect (s : State) : State :=
  let s := set_reconnectAttempts (S (reconnectAttempts s)) s in
  let delay := Z.min (1000 * 2 ^ Z.of_nat (reconnectAttempts s)) 10000 in
  let s := set_error (Some "Connection lost. Reconnecting...") s in
  let id := nextTimerId s in
  set_scheduled (scheduled s ++ [delay])
    (set_nextTimerId (S id)
       (set_timers (timers s ++ [(id, delay)])
          (set_reconnectTimeout (Some id) s))).

Definition onclose (code : Z) (s : State) : State :=
  let s := stopAudioStreaming (set_isConnected false s) in
  if negb (code =? 1000) && (reconnectAttempts s <? 3)%nat
  then handleReconnect s
  else s.

Definition clearTimeout (id : nat) (s : State) : State :=
  set_timers (filter (fun t => fst t <> id) (timers s)) s.

Definition disconnect (s : State) : State :=
  let s :=
    match reconnectTimeout s with
    | Some id => set_reconnectTimeout None (clearTimeout id s)
    | None => s
    end in
  let s := stopAudioStreaming s in
  let s := set_ws false s in
  set_reconnectAttempts 0%nat
    (set_error None (set_transcript "" (set_isConnected false s))).

Definition isPending (id : nat) (s : State) : bool :=
  existsb (fun t => Nat.eqb (fst t) id) (timers s).

Definition step (s : State) (e : Event) : State :=
  match e with
  | Connect => connect s
  | Open => onopen s
  | Message t => onmessage t s
  | SocketError => onerror s
  | Close code => onclose code s
  | TimerFire id =>
      if isPending id s then connect (clearTimeout id s) else s
  | Disconnect => disconnect s
  end.

Definition run (s : State) (es : list Event) : State := fold_left step es s.

(** One failed connection: the socket closes with [code], and the
    reconnect timer that this close scheduled (if any) then expires,
    calling [connect] again; no [onopen] happens in between. *)
Definition failedConnection (s : State) (code : Z) : State :=
  let s := step s (Close code) in
  match reconnectTimeout s with
  | Some id => step s (TimerFire id)
  | None => s
  end.

Definition failedConnections (s : State) (codes : list Z) : State :=
  fold_left failedConnection codes s.

End Handlers.

End Deepgram.

(** ** [hooks/useSentimentProcessor.js]: the sentiment coordinator *)

Module Sentiment.

Definition DEBOUNCE_DELAY : Z := 500.
Definition MIN_TEXT_LENGTH : nat := 3.
Definition MAX_RETRIES : nat := 3.
Definition RETRY_DELAY : Z := 1000.

(** *** Strings: [String.prototype.trim]
    A character stands for one UTF-16 code unit below 256; the white
    space and line terminators in that range are U+0009 to U+000D,
    U+0020 and U+00A0. *)
Definition isWhiteSpace (c : ascii) : bool :=
  let n := nat_of_ascii c in
  ((9 <=? n)%nat && (n <=? 13)%nat) || (n =? 32)%nat || (n =? 160)%nat.

Fixpoint trimStart (s : string) : string :=
  match s with
  | EmptyString => EmptyString
  | String c rest => if isWhiteSpace c then trimStart rest else s
  end.

Definition trimEnd (s : string) : string := String.rev (trimStart (String.rev s)).

Definition trim (s : string) : string := trimEnd (trimStart s).

(** *** The response body
    The sentiment object has the shape the endpoint documents. *)
Record SentimentObject : Type := mkSentiment {
  score : Q;
  type : string;
  intensity : string
}.

(** What [data.sentiment] evaluates to: [undefined] when the key is
    absent, [null], a boolean, number or string (kept by its
    truthiness), or an object. *)
Inductive SentimentField : Type :=
| SentimentUndefined
| SentimentNull
| SentimentPrimitive (isTruthy : bool)
| SentimentObj (o : SentimentObject).

(** What [data.keywords] evaluates to; an array of keyword strings, or
    any other value. *)
Inductive KeywordsField : Type :=
| KeywordsUndefined
| KeywordsNull
| KeywordsPrimitive (isTruthy : bool)
| KeywordsObject
| KeywordsArray (items : list string).

(** [response.data]: the JSON value [null], a primitive (a boolean, a
    number, or a string such as the empty string of an empty body), or
    an object with its [sentiment] and [keywords] properties.  A JSON
    array body reads as an object without either property. *)
Inductive ResponseData : Type :=
| DataNull
| DataPrimitive (isTruthy : bool)
| DataObject (sentimentProp : SentimentField) (keywordsProp : KeywordsField).

Definition dataTruthy (data : ResponseData) : bool :=
  match data with
  | DataNull => false
  | DataPrimitive t => t
  | DataObject _ _ => true
  end.

Definition getSentiment (data : ResponseData) : SentimentField :=
  match data with DataObject f _ => f | _ => SentimentUndefined end.

Definition getKeywords (data : ResponseData) : KeywordsField :=
  match data with DataObject _ f => f | _ => KeywordsUndefined end.

Definition sentimentTruthy (f : SentimentField) : bool :=
  match f with
  | SentimentUndefined | SentimentNull => false
  | SentimentPrimitive t => t
  | SentimentObj _ => true
  end.

(** [typeof f === 'object'] *)
Definition sentimentIsObject (f : SentimentField) : bool :=
  match f with
  | SentimentNull | SentimentObj _ => true
  | _ => false
  end.

Definition keywordsTruthy (f : KeywordsField) : bool :=
  match f with
  | KeywordsUndefined | KeywordsNull => false
  | KeywordsPrimitive t => t
  | KeywordsObject | KeywordsArray _ => true
  end.

(** [Array.isArray(f)] *)
Definition keywordsIsArray (f : KeywordsField) : bool :=
  match f with KeywordsArray _ => true | _ => false end.

(** *** Errors thrown by [axios.post] *)
Record ErrorResponse : Type := mkErrorResponse {
  status : Z;
  dataMessage : option string   (* [err.response.data?.message] *)
}.

Record HttpError : Type := mkHttpError {
  name : string;
  code : option string;
  message : string;
  response : option ErrorResponse;
  request : bool                (* [err.request] is set *)
}.

(** The outcome of one [await axios.post(...)].  An abort (by the
    cleanup on unmount) or a timeout reaches the loop as a rejection. *)
Inductive Outcome : Type :=
| Resolved (data : ResponseData)
| Rejected (err : HttpError).

Definition isAbort (err : HttpError) : bool :=
  String.eqb (name err) "AbortError" ||
  match code err with Some c => String.eqb c "ECONNABORTED" | None => false end.

(** How the retry loop is left. *)
Inductive LoopExit : Type :=
| Responded (data : ResponseData)   (* [response] is set *)
| NoResponse                        (* [break], or the guard failed: [response] is null *)
| Threw (err : HttpError).          (* [throw err] *)

Record Run : Type := mkRun {
  exit : LoopExit;
  attempts : nat;        (* number of [axios.post] calls made *)
  sleeps : list Z        (* delays awaited between them, in order *)
}.

(** The [while (attempt < MAX_RETRIES && !response)] loop.  [net k] is
    what the network answers to the call made when [attempt] is [k].
    [None] is returned only if [fuel] runs out. *)
Fixpoint requestLoop (fuel : nat) (net : nat -> Outcome) (attempt : nat)
    (sleeps : list Z) : option Run :=
  match fuel with
  | O => None
  | S fuel' =>
      if (attempt <? MAX_RETRIES)%nat then
        match net attempt with
        | Resolved data => Some (mkRun (Responded data) (S attempt) sleeps)
        | Rejected err =>
            let currentAttempt := attempt in
            let attempt := S attempt in
            if isAbort err then Some (mkRun NoResponse attempt sleeps)
            else if (currentAttempt <? MAX_RETRIES - 1)%nat then
              requestLoop fuel' net attempt
                (sleeps ++ [RETRY_DELAY * (Z.of_nat currentAttempt + 1)])
            else Some (mkRun (Threw err) attempt sleeps)
        end
      else Some (mkRun NoResponse attempt sleeps)
  end.

Definition executeRequest (net : nat -> Outcome) : option Run :=
  requestLoop (S MAX_RETRIES) net 0 [].

(** The calls before the one numbered [k] all failed with an error that
    is not an abort. *)
Definition transientBefore (net : nat -> Outcome) (k : nat) : Prop :=
  forall j, (j < k)%nat -> exists err, net j = Rejected err /\ isAbort err = false.

(** The message chosen by the [catch] block. *)
Definition orElse (m : string) (fallback : string) : string :=
  if String.eqb m "" then fallback else m.

Definition errorMessageOf (err : HttpError) : string :=
  let errorMessage := "Failed to analyze sentiment" in
  match response err with
  | Some r =>
      if status r =? 400 then "Invalid text format"
      else if status r =? 500 then "Sentiment analysis service unavailable"
      else if status r =? 503 then "Service temporarily unavailable"
      else match dataMessage r with
           | Some m => orElse m errorMessage
           | None => errorMessage
           end
  | None =>
      if request err
      then "Cannot connect to backend. Please ensure the server is running."
      else orElse (message err) errorMessage
  end.

(** *** State of the hook *)

(** A pending [setTimeout]: its delay and the text its callback
    captured. *)
Record Timeout : Type := mkTimeout { ms : Z; arg : string }.

(** [sentiment], [keywords], [isProcessing] and [error] are the
    [useState] cells; [debounceTimer], [lastProcessedText],
    [requestQueue] and [processingLock] are the refs ([debounceTimer] is
    [Some] while its timeout is pending).  [inFlight] is the text of the
    request being executed by the debounce callback, [spacingTimers] the
    pending 100 ms timeouts of the [finally] block, and [posted] the
    bodies of all [axios.post] calls so far, oldest first. *)
Record State : Type := mkState {
  sentiment : option SentimentObject;
  keywords : list string;
  isProcessing : bool;
  error : option string;
  debounceTimer : option Timeout;
  lastProcessedText : string;
  requestQueue : list string;
  processingLock : bool;
  inFlight : option string;
  spacingTimers : list Timeout;
  posted : list string
}.

Definition set_sentiment (v : option SentimentObject) (s : State) : State :=
  mkState v (keywords s) (isProcessing s) (error s) (debounceTimer s)
    (lastProcessedText s) (requestQueue s) (processingLock s) (inFlight s)
    (spacingTimers s) (posted s) .
Definition set_keywords (v : list string) (s : State) : State :=
  mkState (sentiment s) v (isProcessing s) (error s) (debounceTimer s)
    (lastProcessedText s) (requestQueue s) (processingLock s) (inFlight s)
    (spacingTimers s) (posted s) .
Definition set_isProcessing (v : bool) (s : State) : State :=
  mkState (sentiment s) (keywords s) v (error s) (debounceTimer s)
    (lastProcessedText s) (requestQueue s) (processingLock s) (inFlight s)
    (spacingTimers s) (posted s) .
Definition set_error (v : option string) (s : State) : State :=
  mkState (sentiment s) (keywords s) (isProcessing s) v (debounceTimer s)
    (lastProcessedText s) (requestQueue s) (processingLock s) (inFlight s)
    (spacingTimers s) (posted s) .
Definition set_debounceTimer (v : option Timeout) (s : State) : State :=
  mkState (sentiment s) (keywords s) (isProcessing s) (error s) v
    (lastProcessedText s) (requestQueue s) (processingLock s) (inFlight s)
    (spacingTimers s) (posted s) .
Definition set_lastProcessedText (v : string) (s : State) : State :=
  mkState (sentiment s) (keywords s) (isProcessing s) (error s)
    (debounceTimer s) v (requestQueue s) (processingLock s) (inFlight s)
    (spacingTimers s) (posted s) .
Definition set_requestQueue (v : list string) (s : State) : State :=
  mkState (sentiment s) (keywords s) (isProcessing s) (error s)
    (debounceTimer s) (lastProcessedText s) v (processingLock s) (inFlight s)
    (spacingTimers s) (posted s) .
Definition set_processingLock (v : bool) (s : State) : State :=
  mkState (sentiment s) (keywords s) (isProcessing s) (error s)
    (debounceTimer s) (lastProcessedText s) (requestQueue s) v (inFlight s)
    (spacingTimers s) (posted s) .
Definition set_inFlight (v : option string) (s : State) : State :=
  mkState (sentiment s) (keywords s) (isProcessing s) (error s)
    (debounceTimer s) (lastProcessedText s) (requestQueue s)
    (processingLock s) v (spacingTimers s) (posted s) .
Definition set_spacingTimers (v : list Timeout) (s : State) : State :=
  mkState (sentiment s) (keywords s) (isProcessing s) (error s)
    (debounceTimer s) (lastProcessedText s) (requestQueue s)
    (processingLock s) (inFlight s) v (posted s) .
Definition set_posted (v : list string) (s : State) : State :=
  mkState (sentiment s) (keywords s) (isProcessing s) (error s)
    (debounceTimer s) (lastProcessedText s) (requestQueue s)
    (processingLock s) (inFlight s) (spacingTimers s) v.

Definition init : State :=
  mkState None [] false None None "" [] false None [] [].

(** The updater passed to [setSentiment]. *)
Definition smooth (prevSentiment : option SentimentObject)
    (incoming : SentimentObject) : SentimentObject :=
  match prevSentiment with
  | None => incoming
  | Some prev =>
      mkSentiment ((score prev * 0.3) + (score incoming * 0.7))%Q
                  (type incoming) (intensity incoming)
  end.

(** [processText(text, isFinal)] up to the [setTimeout]. *)
Definition processText (text : string) (isFinal : bool) (s : State) : State :=
  if negb isFinal then s
  else if String.eqb text "" || (String.length (trim text) <? MIN_TEXT_LENGTH)%nat then s
  else if String.eqb text (lastProcessedText s) then s
  else set_debounceTimer (Some (mkTimeout DEBOUNCE_DELAY text)) s.

(** The debounce callback, up to its first [await].  Aborting the
    previous controller has no effect there: the lock was free, so the
    previous request has ended. *)
Definition debounceCallback (text : string) (s : State) : State :=
  if processingLock s then
    set_requestQueue (requestQueue s ++ [text]) s
  else
    let s := set_processingLock true s in
    let s := set_isProcessing true s in
    let s := set_error None s in
    let s := set_inFlight (Some text) s in
    set_posted (posted s ++ [text]) s.

(** The block guarded by [if (response && response.data)]. *)
Definition handleResponse (text : string) (data : ResponseData) (s : State) : State :=
  if dataTruthy data then
    let s :=
      if sentimentTruthy (getSentiment data) && sentimentIsObject (getSentiment data) then
        match getSentiment data with
        | SentimentObj incoming => set_sentiment (Some (smooth (sentiment s) incoming)) s
        | _ => s
        end
      else s in
    let s :=
      if keywordsTruthy (getKeywords data) && keywordsIsArray (getKeywords data) then
        match getKeywords data with
        | KeywordsArray items => set_keywords items s
        | _ => s
        end
      else s in
    set_lastProcessedText text s
  else s.

(** The [finally] block. *)
Definition finallyBlock (s : State) : State :=
  let s := set_isProcessing false s in
  let s := set_processingLock false s in
  let s := set_inFlight None s in
  match requestQueue s with
  | nextText :: rest =>
      set_spacingTimers (spacingTimers s ++ [mkTimeout 100 nextText])
        (set_requestQueue rest s)
  | [] => s
  end.

(** The rest of the debounce callback, once the retry loop is left. *)
Definition settle (text : string) (r : Run) (s : State) : State :=
  let s := set_posted (posted s ++ replicate (attempts r - 1) text) s in
  let s :=
    match exit r with
    | Responded data => handleResponse text data s
    | NoResponse => s
    | Threw err => set_error (Some (errorMessageOf err)) s
    end in
  finallyBlock s.

Definition clearData (s : State) : State :=
  set_requestQueue []
    (set_lastProcessedText ""
       (set_error None (set_keywords [] (set_sentiment None s)))).

Inductive Event : Type :=
| Submit (text : string) (isFinal : bool)   (* a call of [processText] *)
| DebounceFire                              (* the debounce timeout expires *)
| Settle (net : nat -> Outcome)             (* the request in flight runs to its end *)
| SpacingFire                               (* the oldest 100 ms timeout expires *)
| ClearData.                                (* a call of [clearData] *)

Definition step (s : State) (e : Event) : State :=
  match e with
  | Submit text isFinal => processText text isFinal s
  | DebounceFire =>
      match debounceTimer s with
      | Some t => debounceCallback (arg t) (set_debounceTimer None s)
      | None => s
      end
  | Settle net =>
      match inFlight s, executeRequest net with
      | Some text, Some r => settle text r s
      | _, _ => s
      end
  | SpacingFire =>
      match spacingTimers s with
      | t :: rest => processText (arg t) true (set_spacingTimers rest s)
      | [] => s
      end
  | ClearData => clearData s
  end.

Definition run (s : State) (es : list Event) : State := fold_left step es s.

Inductive reachable : State -> Prop :=
| reachable_init : reachable init
| reachable_step s e : reachable s -> reachable (step s e).

(** *** Concrete network behaviours and bodies used in examples *)

(** The endpoint answers every call with [data]. *)
Definition answers (data : ResponseData) : nat -> Outcome := fun _ => Resolved data.

(** Every call fails with [err]. *)
Definition fails (err : HttpError) : nat -> Outcome := fun _ => Rejected err.

Definition exampleBody : ResponseData :=
  DataObject (SentimentObj (mkSentiment 0.9 "positive" "strong"))
             (KeywordsArray ["love"; "amazing"]).

(** The body [{}]. *)
Definition emptyObject : ResponseData := DataObject SentimentUndefined KeywordsUndefined.

Definition networkError : HttpError :=
  mkHttpError "AxiosError" (Some "ERR_NETWORK") "Network Error" None true.

(** What axios rejects a call with when the [signal] passed to it is
    aborted, as [abortController.current.abort()] does in the cleanup on
    unmount: an error named [CanceledError] with code [ERR_CANCELED].  A
    later call with the same, aborted, signal is rejected in the same
    way. *)
Definition canceled (message : string) (response : option ErrorResponse)
    (request : bool) : HttpError :=
  mkHttpError "CanceledError" (Some "ERR_CANCELED") message response request.

(** What axios rejects a call with when the 10 s [timeout] expires: code
    [ECONNABORTED]. *)
Definition timeoutError : HttpError :=
  mkHttpError "AxiosError" (Some "ECONNABORTED") "timeout of 10000ms exceeded" None true.


(** A first request for [text] is in flight on a fresh hook. *)
Definition firstInFlight (text : string) : State :=
  run init [Submit text true; DebounceFire].

(** The first request was answered by [exampleBody] and a second request,
    for [text], is in flight. *)
Definition secondInFlight (text : string) : State :=
  run init [Submit "I love this!" true; DebounceFire; Settle (answers exampleBody);
            Submit text true; DebounceFire].

(** The calls [processText(t, true)] for each [t] of [texts], in order, with
    no timer expiring in between. *)
Definition submitAll (s : State) (texts : list string) : State :=
  run s (map (fun t => Submit t true) texts).

(** Two debounce timers expire while the first request is still in
    flight. *)
Definition twoQueued : State :=
  run init [Submit "first sentence" true; DebounceFire;
            Submit "second sentence" true; DebounceFire;
            Submit "third sentence" true; DebounceFire].

(** [n] debounce timers expire while the first request is in flight. *)
Fixpoint queuedBehind (n : nat) : State :=
  match n with
  | O => firstInFlight "first sentence"
  | S n' => run (queuedBehind n') [Submit "next sentence" true; DebounceFire]
  end.

Definition statusError (st : Z) : HttpError :=
  mkHttpError "AxiosError" (Some "ERR_BAD_RESPONSE") "Request failed"
              (Some (mkErrorResponse st None)) true.

End Sentiment.

(** ** The keyword effect of the application component *)

Module App.

Record KeywordEntry : Type := mkKeywordEntry {
  text : string;
  id : Z;
  delay : Z
}.

(** The effect that runs when the [keywords] returned by
    [useSentimentProcessor] change: a non-empty array is appended to
    [currentKeywords], of which the last 20 are kept.  [now] is the value
    of [Date.now()]. *)
Definition keywordsEffect (now : Z) (keywords : list string)
    (currentKeywords : list KeywordEntry) : list KeywordEntry :=
  if (0 <? length keywords)%nat then
    let newKeywords :=
      imap (fun index keyword =>
              mkKeywordEntry keyword (now + Z.of_nat index) (Z.of_nat index * 150))
           keywords in
    let all := currentKeywords ++ newKeywords in
    drop (length all - 20) all
  else currentKeywords.

End App.

(** ** [utils/audioUtils.js]: chunking and the debounce helper *)

Module AudioUtils.

(** [Math.ceil(a / b)] for integers [a >= 0] and [b > 0]. *)
Definition ceilDiv (a b : Z) : Z := - ((- a) / b).

(** [audioData.slice(start, end)] for [0 <= start] and [0 <= end]: the
    elements from index [start] up to, not including, index [end]. *)
Definition slice {A : Type} (audioData : list A) (start end_ : Z) : list A :=
  take (Z.to_nat (end_ - start)) (drop (Z.to_nat start) audioData).

(** The [for (let i = 0; i < numChunks; i++)] loop of [chunkAudioData]. *)
Fixpoint chunkLoop {A : Type} (fuel : nat) (i numChunks : Z) (audioData : list A)
    (chunkSize : Z) (chunks : list (list A)) : list (list A) :=
  match fuel with
  | O => chunks
  | S fuel' =>
      if i <? numChunks then
        let start := i * chunkSize in
        let end_ := Z.min (start + chunkSize) (Z.of_nat (length audioData)) in
        chunkLoop fuel' (i + 1) numChunks audioData chunkSize
                  (chunks ++ [slice audioData start end_])
      else chunks
  end.

(** [chunkAudioData(audioData, chunkSize)], for an array and an integer
    chunk size; the left injection is the message of the thrown error. *)
Definition chunkAudioData {A : Type} (audioData : list A) (chunkSize : Z)
    : string + list (list A) :=
  if chunkSize <=? 0 then inl "Invalid chunking parameters"
  else
    let numChunks := ceilDiv (Z.of_nat (length audioData)) chunkSize in
    inr (chunkLoop (Z.to_nat numChunks) 0 numChunks audioData chunkSize []).

(** [debounce(func, wait)]: the closure variable [timeout] is [Some args]
    while a timer is pending, [args] being the arguments its [later]
    callback captured; [invoked] lists the argument tuples [func] was
    called with, oldest first. *)
Record Debounced (A : Type) : Type := mkDebounced {
  timeout : option A;
  invoked : list A
}.
Arguments mkDebounced {A} _ _.
Arguments timeout {A} _.
Arguments invoked {A} _.

Inductive DebounceEvent (A : Type) : Type :=
| Call (args : A)      (* [executedFunction(...args)] *)
| Expire.              (* the pending timer runs [later] *)
Arguments Call {A} _.
Arguments Expire {A}.

Definition debounceStep {A : Type} (d : Debounced A) (e : DebounceEvent A)
    : Debounced A :=
  match e with
  | Call args => mkDebounced (Some args) (invoked d)
  | Expire =>
      match timeout d with
      | Some args => mkDebounced None (invoked d ++ [args])
      | None => d
      end
  end.

Definition debounceRun {A : Type} (d : Debounced A) (es : list (DebounceEvent A))
    : Debounced A :=
  fold_left debounceStep es d.

(** The arguments of the calls among [es], in order. *)
Definition callsOf {A : Type} (es : list (DebounceEvent A)) : list A :=
  omap (fun e => match e with Call args => Some args | Expire => None end) es.

(** What holds between the calls made so far ([calls]) and the state: the
    invocations are a subsequence of the calls, and a pending timer holds
    the latest call, which has not been invoked yet. *)
Definition debounceInv {A : Type} (calls : list A) (d : Debounced A) : Prop :=
  match timeout d with
  | Some args => exists before, calls = before ++ [args] /\ invoked d `sublist_of` before
  | None => invoked d `sublist_of` calls
  end.

End AudioUtils.

(** ** Traces of the connection hook *)

Module DeepgramTraces.
Import Deepgram.

(** The states the hook can be in: the initial one and those reached by
    any sequence of events. *)
Inductive reachable (apiKey : string) : State -> Prop :=
| reachable_init : reachable apiKey init
| reachable_step s e : reachable apiKey s -> reachable apiKey (step apiKey s e).

(** The delays the backoff can produce. *)
Definition backoffDelay (d : Z) : Prop := d = 2000 \/ d = 4000 \/ d = 8000.


End DeepgramTraces.

(** ** Traces of the sentiment coordinator *)

Module SentimentTraces.
Import Sentiment.

(** The length guard of [processText]. *)
Definition longEnough (text : string) : Prop :=
  (MIN_TEXT_LENGTH <= String.length (trim text))%nat.

(** Every text held anywhere in the hook passed the length guard. *)
Definition guarded (s : State) : Prop :=
  Forall longEnough (posted s) /\
  Forall longEnough (requestQueue s) /\
  Forall (fun t => longEnough (arg t)) (spacingTimers s) /\
  (forall t, debounceTimer s = Some t -> longEnough (arg t)) /\
  (forall text, inFlight s = Some text -> longEnough text).

(** One request from call to answer: [processText(text, true)], the
    debounce expiry, and a network that answers with [data]. *)
Definition answered (data : ResponseData) (s : State) (text : string) : State :=
  run s [Submit text true; DebounceFire; Settle (answers data)].

(** Every sentiment object the network delivers has its score in
    [0, 1], as the endpoint documents. *)
Definition scoresInRange (e : Event) : Prop :=
  match e with
  | Settle net =>
      forall k o kw,
        net k = Resolved (DataObject (SentimentObj o) kw) -> (0 <= score o <= 1)%Q
  | _ => True
  end.

(** The score held by the hook, if any, lies in [0, 1]. *)
Definition scoreInRange (s : State) : Prop :=
  match sentiment s with
  | Some o => (0 <= score o <= 1)%Q
  | None => True
  end.

(** Consecutive texts differ, starting from [previous]. *)
Fixpoint changing (previous : string) (texts : list string) : Prop :=
  match texts with
  | [] => True
  | t :: rest => t <> previous /\ changing t rest
  end.

End SentimentTraces.

(** ** [utils/audioUtils.js]: from 16-bit samples back to floats *)

Module AudioDecode.
Import JsNumber.

Section WithStore.

(** [stored q] is the value a [Float32Array] element holds after the
    quotient [q] was computed in double precision and stored, that is,
    rounded to single precision. *)
Variable stored : Q -> Q.

(** The body of the loop of [convertInt16ToFloat32]:
    [buffer[i] < 0 ? buffer[i] / 0x8000 : buffer[i] / 0x7FFF]. *)
Definition decodeSample (x : Z) : Number :=
  if x <? 0 then Fin (stored (x # 32768)) else Fin (stored (x # 32767)).

Fixpoint decodeLoop (fuel i : nat) (buffer : list Z) (float32Buffer : list Number)
  : list Number :=
  match fuel with
  | O => float32Buffer
  | S fuel' =>
      if (i <? length buffer)%nat then
        decodeLoop fuel' (S i) buffer
                   (<[i := decodeSample (nth i buffer 0)]> float32Buffer)
      else float32Buffer
  end.

(** [convertInt16ToFloat32(buffer)], for an [Int16Array]. *)
Definition convertInt16ToFloat32 (buffer : list Z) : list Number :=
  decodeLoop (length buffer) 0 buffer (replicate (length buffer) (Fin 0)).

(** Single precision holds every multiple of 2^-15 between -1 and 1
    exactly. *)
Definition exactOnFifteenBits : Prop :=
  forall (q : Q) (k : Z),
    (q == k # 32768)%Q -> -32768 <= k <= 32768 -> (stored q == q)%Q.

End WithStore.

End AudioDecode.

(** ** [utils/audioUtils.js]: formatting a duration *)

Module AudioFormat.

(** [Number.prototype.toString] on an integer: its decimal digits, with a
    minus sign when negative. *)
Definition toString (z : Z) : string := NilZero.string_of_int (Z.to_int z).

(** [str.padStart(2, '0')] *)
Definition padStart2 (str : string) : string :=
  match String.length str with
  | O => "00"
  | S O => String "0" str
  | _ => str
  end.

(** [formatDuration(seconds)] for a whole number of seconds:
    [Math.floor(seconds / 60)] is the quotient rounded down and
    [Math.floor(seconds % 60)] the remainder with the sign of
    [seconds]. *)
Definition formatDuration (seconds : Z) : string :=
  let mins := seconds / 60 in
  let secs := Z.rem seconds 60 in
  String.append (padStart2 (toString mins))
                (String.append ":" (padStart2 (toString secs))).

(** The character of a decimal digit. *)
Definition digit (d : Z) : ascii := ascii_of_N (48 + Z.to_N d).

(** Two digits, a colon, two digits. *)
Definition mmss (minutes seconds : Z) : string :=
  String (digit (minutes / 10))
    (String (digit (minutes mod 10))
       (String ":"
          (String (digit (seconds / 10)) (String (digit (seconds mod 10)) "")))).

End AudioFormat.

(** ** The microphone hook, [useAudioCapture] *)

Module AudioCapture.

(** [stream], [error], [isCapturing] and [permissionState] are the state
    cells; [audioContext], [mediaStream] and [audioTracks] the refs
    (whether a context or a stream is held, and how many tracks).
    [closeTimers] counts the pending 100 ms timeouts of [stopCapture];
    [created] and [closed] count the audio contexts constructed and the
    calls of [audioContext.current.close()]. *)
Record State : Type := mkState {
  stream : bool;
  error : option string;
  isCapturing : bool;
  permissionState : string;
  audioContext : bool;
  mediaStream : bool;
  audioTracks : nat;
  closeTimers : nat;
  created : nat;
  closed : nat
}.

Definition set_stream (v : bool) (s : State) : State :=
  mkState v (error s) (isCapturing s) (permissionState s) (audioContext s)
    (mediaStream s) (audioTracks s) (closeTimers s) (created s) (closed s).
Definition set_error (v : option string) (s : State) : State :=
  mkState (stream s) v (isCapturing s) (permissionState s) (audioContext s)
    (mediaStream s) (audioTracks s) (closeTimers s) (created s) (closed s).
Definition set_isCapturing (v : bool) (s : State) : State :=
  mkState (stream s) (error s) v (permissionState s) (audioContext s)
    (mediaStream s) (audioTracks s) (closeTimers s) (created s) (closed s).
Definition set_permissionState (v : string) (s : State) : State :=
  mkState (stream s) (error s) (isCapturing s) v (audioContext s)
    (mediaStream s) (audioTracks s) (closeTimers s) (created s) (closed s).
Definition set_audioContext (v : bool) (s : State) : State :=
  mkState (stream s) (error s) (isCapturing s) (permissionState s) v
    (mediaStream s) (audioTracks s) (closeTimers s) (created s) (closed s).
Definition set_mediaStream (v : bool) (s : State) : State :=
  mkState (stream s) (error s) (isCapturing s) (permissionState s)
    (audioContext s) v (audioTracks s) (closeTimers s) (created s) (closed s).
Definition set_audioTracks (v : nat) (s : State) : State :=
  mkState (stream s) (error s) (isCapturing s) (permissionState s)
    (audioContext s) (mediaStream s) v (closeTimers s) (created s) (closed s).
Definition set_closeTimers (v : nat) (s : State) : State :=
  mkState (stream s) (error s) (isCapturing s) (permissionState s)
    (audioContext s) (mediaStream s) (audioTracks s) v (created s) (closed s).
Definition set_created (v : nat) (s : State) : State :=
  mkState (stream s) (error s) (isCapturing s) (permissionState s)
    (audioContext s) (mediaStream s) (audioTracks s) (closeTimers s) v
    (closed s).
Definition set_closed (v : nat) (s : State) : State :=
  mkState (stream s) (error s) (isCapturing s) (permissionState s)
    (audioContext s) (mediaStream s) (audioTracks s) (closeTimers s)
    (created s) v.

Definition init : State := mkState false None false "prompt" false false 0 0 0 0.

(** What the calls made once the stream is granted do: each of them
    returns, or [audioTracks.current[0].getSettings()] throws, or the
    constructor of the audio context throws; [name] is the name of the
    error thrown. *)
Inductive AfterGrant : Type :=
| Completes
| SettingsThrow (name : string)
| ContextThrow (name : string).

(** What [navigator.mediaDevices.getUserMedia] does: it resolves with a
    stream of [tracks] audio tracks, after which the rest of the [try]
    block goes as [after] says, or it rejects with an error named
    [name]. *)
Inductive UserMedia : Type :=
| Granted (tracks : nat) (after : AfterGrant)
| Refused (name : string).

(** How a call of [startCapture] ends: it returns the stream, or throws
    an [Error] with a message. *)
Inductive Completion : Type :=
| Returned
| Thrown (message : string).

Definition isOneOf (name a b : string) : bool := String.eqb name a || String.eqb name b.

(** The message chosen by the [catch] block of [startCapture] from
    [err.name]. *)
Definition errorMessageFor (name : string) : string :=
  if isOneOf name "NotAllowedError" "PermissionDeniedError" then
    "Microphone access denied. Please grant permission and try again."
  else if isOneOf name "NotFoundError" "DevicesNotFoundError" then
    "No microphone found. Please connect a microphone and try again."
  else if isOneOf name "NotReadableError" "TrackStartError" then
    "Microphone is already in use by another application."
  else if isOneOf name "OverconstrainedError" "ConstraintNotSatisfiedError" then
    "Your microphone does not support the required settings."
  else if String.eqb name "TypeError" then
    "Invalid configuration. Please refresh and try again."
  else "Failed to access microphone".

(** The [catch] block. *)
Definition catchBlock (name : string) (s : State) : State * Completion :=
  let s := set_isCapturing false s in
  let s :=
    if isOneOf name "NotAllowedError" "PermissionDeniedError"
    then set_permissionState "denied" s else s in
  (set_error (Some (errorMessageFor name)) s, Thrown (errorMessageFor name)).

(** The [try] block of [startCapture] from the creation of the audio
    context on. *)
Definition contextAndState (s : State) : State * Completion :=
  let s :=
    if negb (audioContext s)
    then set_created (S (created s)) (set_audioContext true s)
    else s in
  (set_permissionState "granted" (set_stream true s), Returned).

(** [startCapture()].  [supported] says whether [checkBrowserSupport]
    finds [navigator.mediaDevices.getUserMedia]; when it does not, it
    throws a plain [Error], whose name is ["Error"].  An error thrown
    once the stream is granted reaches the [catch] block with the stream
    and its tracks already stored in the refs: [getSettings] is called
    only when there is a track, the constructor of the audio context only
    when no context is held. *)
Definition startCapture (supported : bool) (media : UserMedia) (s : State)
    : State * Completion :=
  let s := set_error None s in
  if negb supported then catchBlock "Error" s
  else if isCapturing s && mediaStream s then (s, Returned)
  else
    let s := set_isCapturing true s in
    match media with
    | Refused name => catchBlock name s
    | Granted tracks after =>
        let s := set_audioTracks tracks (set_mediaStream true s) in
        match after with
        | SettingsThrow name =>
            if (0 <? tracks)%nat then catchBlock name s else contextAndState s
        | ContextThrow name =>
            if negb (audioContext s) then catchBlock name s else contextAndState s
        | Completes => contextAndState s
        end
    end.

(** [stopCapture()]. *)
Definition stopCapture (s : State) : State :=
  let s := if (0 <? audioTracks s)%nat then set_audioTracks 0%nat s else s in
  let s := if mediaStream s then set_mediaStream false s else s in
  let s := if audioContext s then set_closeTimers (S (closeTimers s)) s else s in
  set_error None (set_isCapturing false (set_stream false s)).

(** The callback of the 100 ms timeout set by [stopCapture]. *)
Definition closeTimerFire (s : State) : State :=
  match closeTimers s with
  | O => s
  | S n =>
      let s := set_closeTimers n s in
      if audioContext s
      then set_audioContext false (set_closed (S (closed s)) s)
      else s
  end.

Inductive Event : Type :=
| StartCapture (supported : bool) (media : UserMedia)
| StopCapture
| TrackEnded          (* the [ended] listener, which calls [stopCapture] *)
| CloseTimerFire.

Definition step (s : State) (e : Event) : State :=
  match e with
  | StartCapture supported media => fst (startCapture supported media s)
  | StopCapture | TrackEnded => stopCapture s
  | CloseTimerFire => closeTimerFire s
  end.

Inductive reachable : State -> Prop :=
| reachable_init : reachable init
| reachable_step s e : reachable s -> reachable (step s e).

End AudioCapture.

(** * Properties *)

Module AudioFacts.
Import JsNumber Audio.

Lemma nth_lookup_sample (buffer : list Number) (j : nat) (x : Number) :
  buffer !! j = Some x -> nth j buffer NaN = x.
Proof. intros H. rewrite nth_lookup, H. reflexivity. Qed.

(** The loop fills [int16Buffer] left to right: once every index below
    [i] holds its encoded sample and [fuel] covers the rest, the result
    is the pointwise encoding. *)
Lemma convertLoop_map (fuel : nat) :
  forall (i : nat) (buffer : list Number) (out : list Z),
    length out = length buffer ->
    (i + fuel = length buffer)%nat ->
    (forall j x, (j < i)%nat -> buffer !! j = Some x -> out !! j = Some (encodeSample x)) ->
    convertLoop fuel i buffer out = map encodeSample buffer.
Proof.
  induction fuel as [|fuel IH]; intros i buffer out Hlen Hi Hdone; simpl.
  - apply list_eq. intros j. rewrite list_lookup_fmap.
    destruct (buffer !! j) as [x|] eqn:Hj; simpl.
    + apply Hdone; [|assumption]. apply lookup_lt_Some in Hj. lia.
    + apply lookup_ge_None. apply lookup_ge_None in Hj. lia.
  - destruct (Nat.ltb_spec i (length buffer)) as [Hlt|Hge]; [|lia].
    apply IH.
    + rewrite length_insert. assumption.
    + lia.
    + intros j x Hj Hx. destruct (decide (j = i)) as [->|Hne].
      * rewrite list_lookup_insert_eq by lia.
        rewrite (nth_lookup_sample _ _ _ Hx). reflexivity.
      * rewrite list_lookup_insert_ne by congruence.
        apply Hdone; [lia|assumption].
Qed.

Lemma streamLoop_convertLoop (fuel : nat) :
  forall i inputData output,
    streamLoop fuel i inputData output = convertLoop fuel i inputData output.
Proof.
  induction fuel as [|fuel IH]; intros; simpl; [reflexivity|].
  destruct (i <? length inputData)%nat; [apply IH|reflexivity].
Qed.

Lemma convertFloat32ToInt16_map (buffer : list Number) :
  convertFloat32ToInt16 buffer = map encodeSample buffer.
Proof.
  unfold convertFloat32ToInt16. apply convertLoop_map.
  - apply length_replicate.
  - lia.
  - intros j x Hj. lia.
Qed.

Lemma clamp_clampSpec (x : Number) : clamp x = clampSpec x.
Proof.
  destruct x as [q| | |]; try reflexivity.
  unfold clamp, clampSpec, min, max, ofZ, lt; simpl.
  change (inject_Z 1) with 1%Q. change (inject_Z (-1)) with (-1)%Q.
  destruct (Qlt_le_dec q 1) as [H1|H1]; simpl.
  - destruct (Qlt_le_dec (-1) q); reflexivity.
  - reflexivity.
Qed.

Lemma scale_scaleSpec (x : Number) : scale x = scaleSpec x.
Proof.
  destruct x as [q| | |]; try reflexivity.
  unfold scale, scaleSpec, lt, ofZ; simpl.
  change (inject_Z 0) with 0%Q.
  destruct (Qlt_le_dec q 0); reflexivity.
Qed.

Lemma encodeSample_encodeSpec (x : Number) : encodeSample x = encodeSpec x.
Proof.
  unfold encodeSample, encodeSpec. rewrite clamp_clampSpec, scale_scaleSpec. reflexivity.
Qed.

(** A clamped sample is NaN or a rational between -1 and 1. *)
Lemma clampSpec_range (x : Number) :
  match clampSpec x with
  | Fin q => (-1 <= q <= 1)%Q
  | NaN => x = NaN
  | _ => False
  end.
Proof.
  destruct x as [q| | |]; simpl; try (split; discriminate); try reflexivity.
  destruct (Qlt_le_dec q 1) as [H1|H1].
  - destruct (Qlt_le_dec (-1) q) as [H2|H2].
    + split; apply Qlt_le_weak; assumption.
    + split; discriminate.
  - split; discriminate.
Qed.

Lemma clampSpec_idempotent (x : Number) : clampSpec (clampSpec x) = clampSpec x.
Proof.
  destruct x as [q| | |]; try reflexivity. simpl.
  destruct (Qlt_le_dec q 1) as [H1|H1]; [|reflexivity].
  destruct (Qlt_le_dec (-1) q) as [H2|H2]; [|reflexivity].
  simpl. destruct (Qlt_le_dec q 1); [|contradiction (Qlt_irrefl q); eapply Qlt_le_trans; eassumption].
  destruct (Qlt_le_dec (-1) q); [reflexivity|].
  contradiction (Qlt_irrefl q). eapply Qle_lt_trans; eassumption.
Qed.

(** [ToInt16] is the identity on integers that already fit 16 bits. *)
Lemma wrap16_small (t : Z) :
  -32768 <= t <= 32767 ->
  (if 32768 <=? t mod 65536 then t mod 65536 - 65536 else t mod 65536) = t.
Proof.
  intros Ht. destruct (Z_lt_le_dec t 0) as [Hneg|Hpos].
  - replace (t mod 65536) with (t + 65536).
    + destruct (Z.leb_spec 32768 (t + 65536)); lia.
    + apply (Z.mod_unique_pos t 65536 (-1)); lia.
  - rewrite Z.mod_small by lia. destruct (Z.leb_spec 32768 t); lia.
Qed.

(** Scaling a clamped sample stays within the 16-bit range after
    truncation, for either constant. *)
Lemma truncate_scaled_range (q : Q) :
  (-1 <= q <= 1)%Q ->
  -32768 <= truncate (q * 32768) <= 32768 /\
  -32767 <= truncate (q * 32767) <= 32767.
Proof.
  destruct q as [n d]. unfold Qle, truncate; simpl. intros [Hlo Hhi].
  rewrite !Pos.mul_1_r.
  assert (Hd : 0 < Z.pos d) by lia.
  assert (Hb : - Z.pos d <= n <= Z.pos d) by lia.
  split; split.
  - apply Z.quot_le_lower_bound; [lia|nia].
  - apply Z.quot_le_upper_bound; [lia|nia].
  - apply Z.quot_le_lower_bound; [lia|nia].
  - apply Z.quot_le_upper_bound; [lia|nia].
Qed.

(** The value stored for a sample is the plain truncation of the scaled
    clamped sample: the reduction modulo 2^16 never wraps. *)
Lemma encodeSpec_no_wrap (x : Number) :
  match scaleSpec (clampSpec x) with
  | Fin r => encodeSpec x = truncate r /\ -32768 <= truncate r <= 32767
  | NaN => encodeSpec x = 0
  | _ => False
  end.
Proof.
  unfold encodeSpec. pose proof (clampSpec_range x) as Hc.
  destruct (clampSpec x) as [q| | |]; try contradiction; [|reflexivity].
  unfold scaleSpec. destruct (truncate_scaled_range q Hc) as [H8 H7].
  destruct (Qlt_le_dec q 0) as [Hneg|Hpos]; unfold ToInt16.
  - assert (Hup : truncate (q * 32768) <= 0).
    { destruct q as [n d]. unfold Qlt in Hneg. unfold truncate; simpl in *.
      apply Z.quot_le_upper_bound; lia. }
    split; [apply wrap16_small|]; lia.
  - split; [apply wrap16_small|]; lia.
Qed.

(** C2. Float-to-PCM16 encoding, in [convertFloat32ToInt16] and in the
    audio callback of [useDeepgram], encodes every sample by clamping it
    to [-1, 1] and then scaling it by 32768 when negative and by 32767
    otherwise; 1.0 encodes to 32767, -1.0 to -32768 and 0 to 0; any input
    encodes as its clamped value does; and the stored 16-bit value is
    the truncation of the scaled sample, without wrap-around. *)
Theorem float_to_pcm16_clamps_then_scales :
  (forall buffer : list Number,
      convertFloat32ToInt16 buffer = map encodeSpec buffer /\
      onaudioprocess buffer = map encodeSpec buffer) /\
  encodeSpec (Fin 1) = 32767 /\
  encodeSpec (Fin (-1)) = -32768 /\
  encodeSpec (Fin 0) = 0 /\
  (forall x : Number, encodeSpec x = encodeSpec (clampSpec x)) /\
  (forall x : Number,
      match scaleSpec (clampSpec x) with
      | Fin r => encodeSpec x = truncate r /\ -32768 <= truncate r <= 32767
      | NaN => encodeSpec x = 0
      | _ => False
      end).
Proof.
  split; [|split; [|split; [|split; [|split]]]].
  - intros buffer.
    assert (Hmap : map encodeSample buffer = map encodeSpec buffer).
    { apply map_ext. intros x. apply encodeSample_encodeSpec. }
    split.
    + rewrite convertFloat32ToInt16_map. exact Hmap.
    + unfold onaudioprocess. rewrite streamLoop_convertLoop.
      fold (convertFloat32ToInt16 buffer).
      rewrite convertFloat32ToInt16_map. exact Hmap.
  - reflexivity.
  - reflexivity.
  - reflexivity.
  - intros x. unfold encodeSpec. rewrite clampSpec_idempotent. reflexivity.
  - apply encodeSpec_no_wrap.
Qed.

End AudioFacts.

Module DeepgramFacts.
Import Deepgram.

Section WithKey.
Variable apiKey : string.



(** An abnormal close below the limit schedules one reconnect, after
    the delay computed from the incremented counter. *)
Lemma onclose_schedules (s : State) (code : Z) :
  code <> 1000 -> (reconnectAttempts s < 3)%nat ->
  reconnectAttempts (onclose code s) = S (reconnectAttempts s) /\
  scheduled (onclose code s) =
    scheduled s ++ [Z.min (1000 * 2 ^ Z.of_nat (S (reconnectAttempts s))) 10000] /\
  reconnectTimeout (onclose code s) = Some (nextTimerId s) /\
  timers (onclose code s) =
    timers s ++ [(nextTimerId s, Z.min (1000 * 2 ^ Z.of_nat (S (reconnectAttempts s))) 10000)].
Proof.
  intros Hcode Hlt. unfold onclose.
  replace (code =? 1000) with false by (symmetry; apply Z.eqb_neq; exact Hcode).
  replace (reconnectAttempts (stopAudioStreaming (set_isConnected false s)) <? 3)%nat
    with true by (symmetry; apply Nat.ltb_lt; exact Hlt).
  simpl. repeat split; reflexivity.
Qed.





End WithKey.


End DeepgramFacts.

Module SentimentFacts.
Import Sentiment.

(** *** The retry loop *)

(** The loop never runs out of fuel: [executeRequest] always yields a
    run. *)
Lemma executeRequest_total (net : nat -> Outcome) :
  exists r, executeRequest net = Some r.
Proof.
  unfold executeRequest. simpl.
  destruct (net 0%nat) as [d0|e0]; [eauto|].
  destruct (isAbort e0); [eauto|].
  destruct (net 1%nat) as [d1|e1]; [eauto|].
  destruct (isAbort e1); [eauto|].
  destruct (net 2%nat) as [d2|e2]; [eauto|].
  destruct (isAbort e2); eauto.
Qed.

Ltac loop_cases net :=
  unfold executeRequest; simpl;
  let e0 := fresh "e0" in let e1 := fresh "e1" in let e2 := fresh "e2" in
  let N0 := fresh "N0" in let N1 := fresh "N1" in let N2 := fresh "N2" in
  let A0 := fresh "A0" in let A1 := fresh "A1" in let A2 := fresh "A2" in
  destruct (net 0%nat) as [?d0|e0] eqn:N0;
  [|destruct (isAbort e0) eqn:A0;
    [|destruct (net 1%nat) as [?d1|e1] eqn:N1;
      [|destruct (isAbort e1) eqn:A1;
        [|destruct (net 2%nat) as [?d2|e2] eqn:N2;
          [|destruct (isAbort e2) eqn:A2]]]]].

Ltac use_prefix H j :=
  let e := fresh "e" in let He := fresh "He" in let Ha := fresh "Ha" in
  destruct (H j ltac:(lia)) as (e & He & Ha).

(** The loop as a whole.  It always ends, after one to three calls of
    [axios.post]; the waits between consecutive calls are 1000 ms times
    the number of the failed call (1000 ms, then 2000 ms); a failure on
    which [isAbort] is false is followed by a further call as long as
    fewer than three were made, and after the third it is thrown; a
    failure on which [isAbort] is true (name [AbortError] or code
    [ECONNABORTED]) ends the loop at once, without a further call and
    without a throw. *)
Lemma retry_policy (net : nat -> Outcome) :
  exists r,
    executeRequest net = Some r /\
    (1 <= attempts r <= MAX_RETRIES)%nat /\
    sleeps r = map (fun n => RETRY_DELAY * Z.of_nat n) (seq 1 (attempts r - 1)) /\
    sleeps r = take (attempts r - 1) [1000; 2000] /\
    transientBefore net (attempts r - 1) /\
    match exit r with
    | Responded data => net (attempts r - 1)%nat = Resolved data
    | NoResponse =>
        exists err, net (attempts r - 1)%nat = Rejected err /\ isAbort err = true
    | Threw err =>
        attempts r = MAX_RETRIES /\ net 2%nat = Rejected err /\ isAbort err = false
    end /\
    (forall k err,
        transientBefore net k -> (k < MAX_RETRIES)%nat ->
        net k = Rejected err -> isAbort err = true ->
        attempts r = S k /\ exit r = NoResponse) /\
    (forall k err,
        transientBefore net k -> (S k < MAX_RETRIES)%nat ->
        net k = Rejected err -> isAbort err = false ->
        (S (S k) <= attempts r)%nat /\
        sleeps r !! k = Some (RETRY_DELAY * (Z.of_nat k + 1))).
Proof.
  unfold transientBefore, MAX_RETRIES.
  loop_cases net; (eexists; split; [reflexivity|]); simpl;
    (split; [lia|]); (split; [reflexivity|]); (split; [reflexivity|]);
    (split; [intros j Hj; assert (Hj' : j = 0%nat \/ j = 1%nat) by lia;
             destruct Hj' as [->| ->]; eauto; lia|]);
    (split; [eauto|]);
    (split; intros k err Hpre Hk Hnet Hab;
       assert (Hk' : k = 0%nat \/ k = 1%nat \/ k = 2%nat) by lia;
       destruct Hk' as [->|[->| ->]];
       try (use_prefix Hpre 0%nat); try (use_prefix Hpre 1%nat);
       try congruence; try lia; split; (reflexivity || lia)).
Qed.

(** The statement at a network that fails twice and then answers, and at
    one whose first call times out. *)
Lemma retry_policy_witness :
  (exists r, executeRequest
               (fun k => if (k <? 2)%nat then Rejected networkError else Resolved exampleBody)
             = Some r /\ attempts r = 3%nat /\ sleeps r = [1000; 2000]) /\
  (exists r, executeRequest (fails timeoutError) = Some r /\
             attempts r = 1%nat /\ exit r = NoResponse).
Proof.
  split.
  - destruct (retry_policy
                (fun k => if (k <? 2)%nat then Rejected networkError else Resolved exampleBody))
      as (r & Hr & _ & _ & Hs & _ & _ & _ & Hretry).
    exists r. split; [exact Hr|].
    destruct (Hretry 1%nat networkError) as [Hge Hsl].
    + intros j Hj. exists networkError.
      assert (Hj' : j = 0%nat) by lia. subst j. split; reflexivity.
    + unfold MAX_RETRIES. lia.
    + reflexivity.
    + reflexivity.
    + vm_compute in Hr. injection Hr as <-. split; reflexivity.
  - destruct (retry_policy (fails timeoutError)) as (r & Hr & _ & _ & _ & _ & _ & Habort & _).
    exists r. split; [exact Hr|].
    apply (Habort 0%nat timeoutError).
    + intros j Hj. lia.
    + unfold MAX_RETRIES. lia.
    + reflexivity.
    + reflexivity.
Defined.

(** *** What settling a request does to the state *)

Lemma step_settle (s : State) (text : string) (net : nat -> Outcome) (r : Run) :
  inFlight s = Some text -> executeRequest net = Some r ->
  step s (Settle net) = settle text r s.
Proof. intros Hf Hr. simpl. rewrite Hf, Hr. reflexivity. Qed.

(** The [finally] block releases the lock and leaves the results alone. *)
Lemma finallyBlock_frame (s : State) :
  sentiment (finallyBlock s) = sentiment s /\
  keywords (finallyBlock s) = keywords s /\
  error (finallyBlock s) = error s /\
  lastProcessedText (finallyBlock s) = lastProcessedText s /\
  posted (finallyBlock s) = posted s /\
  inFlight (finallyBlock s) = None /\
  processingLock (finallyBlock s) = false.
Proof.
  unfold finallyBlock; simpl. destruct (requestQueue s); simpl; repeat split.
Qed.

Lemma handleResponse_sentiment (text : string) (data : ResponseData) (s : State) :
  sentiment (handleResponse text data s) =
    match data with
    | DataObject (SentimentObj incoming) _ => Some (smooth (sentiment s) incoming)
    | _ => sentiment s
    end.
Proof.
  destruct data as [|[|]|[| | [|] |incoming] [| | [|] | |items]]; reflexivity.
Qed.

Lemma handleResponse_keywords (text : string) (data : ResponseData) (s : State) :
  keywords (handleResponse text data s) =
    match getKeywords data with
    | KeywordsArray items => items
    | _ => keywords s
    end.
Proof.
  destruct data as [|[|]|[| | [|] |incoming] [| | [|] | |items]]; reflexivity.
Qed.

Lemma handleResponse_error (text : string) (data : ResponseData) (s : State) :
  error (handleResponse text data s) = error s.
Proof.
  destruct data as [|[|]|[| | [|] |incoming] [| | [|] | |items]]; reflexivity.
Qed.

Lemma handleResponse_lastProcessedText (text : string) (data : ResponseData) (s : State) :
  lastProcessedText (handleResponse text data s) =
    if dataTruthy data then text else lastProcessedText s.
Proof.
  destruct data as [|[|]|[| | [|] |incoming] [| | [|] | |items]]; reflexivity.
Qed.

(** The four result cells after [settle], by the way the loop was left. *)
Lemma settle_results (text : string) (r : Run) (s : State) :
  match exit r with
  | Responded data =>
      sentiment (settle text r s) =
        match data with
        | DataObject (SentimentObj incoming) _ => Some (smooth (sentiment s) incoming)
        | _ => sentiment s
        end /\
      keywords (settle text r s) =
        match getKeywords data with
        | KeywordsArray items => items
        | _ => keywords s
        end /\
      error (settle text r s) = error s /\
      lastProcessedText (settle text r s) =
        if dataTruthy data then text else lastProcessedText s
  | NoResponse =>
      sentiment (settle text r s) = sentiment s /\
      keywords (settle text r s) = keywords s /\
      error (settle text r s) = error s /\
      lastProcessedText (settle text r s) = lastProcessedText s
  | Threw err =>
      sentiment (settle text r s) = sentiment s /\
      keywords (settle text r s) = keywords s /\
      error (settle text r s) = Some (errorMessageOf err) /\
      lastProcessedText (settle text r s) = lastProcessedText s
  end.
Proof.
  unfold settle.
  destruct (exit r) as [data| |err];
    match goal with
    | |- context [finallyBlock ?t] =>
        destruct (finallyBlock_frame t) as (-> & -> & -> & -> & _)
    end.
  - rewrite handleResponse_sentiment, handleResponse_keywords,
      handleResponse_error, handleResponse_lastProcessedText.
    repeat split.
  - repeat split.
  - repeat split.
Qed.

(** C1. When a request settles with a response whose body carries a
    sentiment object: if a previous sentiment exists, the new score is
    0.3 times the previous score plus 0.7 times the incoming one (and lies
    in [0, 1] when both scores do), while type and intensity are the
    incoming ones; if no previous sentiment exists, the incoming object is
    taken as it is. *)
Theorem smoothing_on_response (s : State) (text : string) (net : nat -> Outcome)
    (r : Run) (incoming : SentimentObject) (kw : KeywordsField) :
  inFlight s = Some text ->
  executeRequest net = Some r ->
  exit r = Responded (DataObject (SentimentObj incoming) kw) ->
  match sentiment s with
  | None => sentiment (step s (Settle net)) = Some incoming
  | Some prev =>
      exists new,
        sentiment (step s (Settle net)) = Some new /\
        (score new == 0.3 * score prev + 0.7 * score incoming)%Q /\
        type new = type incoming /\
        intensity new = intensity incoming /\
        ((0 <= score prev <= 1)%Q -> (0 <= score incoming <= 1)%Q ->
         (0 <= score new <= 1)%Q)
  end.
Proof.
  intros Hf Hr He. rewrite (step_settle s text net r Hf Hr).
  pose proof (settle_results text r s) as H. rewrite He in H.
  destruct H as (Hs & _). rewrite Hs.
  destruct (sentiment s) as [prev|]; simpl; [|reflexivity].
  eexists. split; [reflexivity|]. simpl.
  split; [ring|]. split; [reflexivity|]. split; [reflexivity|].
  intros [Hp0 Hp1] [Hi0 Hi1]. split; lra.
Qed.

(** The statement at a second response with score 0.5 after a first one
    with score 0.9. *)
Lemma smoothing_on_response_witness :
  exists new,
    sentiment (step (secondInFlight "It is fine.")
                 (Settle (answers (DataObject (SentimentObj (mkSentiment 0.5 "neutral" "weak"))
                                              KeywordsUndefined)))) = Some new /\
    (score new == 0.62)%Q /\ type new = "neutral" /\ intensity new = "weak".
Proof.
  pose proof (smoothing_on_response (secondInFlight "It is fine.") "It is fine."
                (answers (DataObject (SentimentObj (mkSentiment 0.5 "neutral" "weak"))
                                     KeywordsUndefined))
                (mkRun (Responded (DataObject (SentimentObj (mkSentiment 0.5 "neutral" "weak"))
                                              KeywordsUndefined)) 1 [])
                (mkSentiment 0.5 "neutral" "weak") KeywordsUndefined
                ltac:(vm_compute; reflexivity) ltac:(vm_compute; reflexivity)
                ltac:(vm_compute; reflexivity)) as H.
  assert (Hprev : sentiment (secondInFlight "It is fine.")
                  = Some (mkSentiment 0.9 "positive" "strong"))
    by (vm_compute; reflexivity).
  rewrite Hprev in H.
  destruct H as (new & Hnew & Hscore & Htype & Hint & _).
  exists new. split; [exact Hnew|]. split; [|split; assumption].
  rewrite Hscore. reflexivity.
Defined.

(** *** Reachable states *)

Lemma reachable_run (es : list Event) :
  forall s, reachable s -> reachable (run s es).
Proof.
  induction es as [|e es IH]; intros s Hs; [exact Hs|].
  apply (IH (step s e)). constructor. exact Hs.
Qed.

(** [processText] changes nothing but the debounce timer. *)
Lemma processText_frame (text : string) (isFinal : bool) (s : State) :
  sentiment (processText text isFinal s) = sentiment s /\
  keywords (processText text isFinal s) = keywords s /\
  error (processText text isFinal s) = error s /\
  lastProcessedText (processText text isFinal s) = lastProcessedText s /\
  requestQueue (processText text isFinal s) = requestQueue s /\
  processingLock (processText text isFinal s) = processingLock s /\
  inFlight (processText text isFinal s) = inFlight s /\
  spacingTimers (processText text isFinal s) = spacingTimers s /\
  posted (processText text isFinal s) = posted s.
Proof.
  unfold processText.
  destruct (negb isFinal); [repeat split|].
  destruct (String.eqb text "" || (String.length (trim text) <? MIN_TEXT_LENGTH)%nat);
    [repeat split|].
  destruct (String.eqb text (lastProcessedText s)); repeat split.
Qed.

(** While a request is in flight, the error cell is empty: it was cleared
    when the request started and only the end of the request sets it. *)
Lemma inFlight_error_cleared (s : State) :
  reachable s -> forall text, inFlight s = Some text -> error s = None.
Proof.
  induction 1 as [|s e Hs IH]; intros text Hf; [discriminate|].
  destruct e as [t f| |net| |]; simpl in *.
  - destruct (processText_frame t f s) as (_ & _ & He & _ & _ & _ & Hi & _).
    rewrite He. rewrite Hi in Hf. eauto.
  - destruct (debounceTimer s) as [tm|]; [|eauto].
    unfold debounceCallback in *; simpl in *.
    destruct (processingLock s); simpl in *; eauto.
  - destruct (inFlight s) as [t|] eqn:Hfs; [|congruence].
    destruct (executeRequest net) as [r|]; [|rewrite Hfs in Hf; eauto].
    unfold settle in Hf.
    match type of Hf with
    | context [finallyBlock ?t] =>
        destruct (finallyBlock_frame t) as (_ & _ & _ & _ & _ & Hnone & _)
    end.
    congruence.
  - destruct (spacingTimers s) as [|tm rest]; [eauto|].
    destruct (processText_frame (arg tm) true (set_spacingTimers rest s))
      as (_ & _ & He & _ & _ & _ & Hi & _).
    rewrite He. rewrite Hi in Hf. simpl in *. eauto.
  - reflexivity.
Qed.

(** The lock is held exactly while a request is in flight, so at most one
    request is executing at any time. *)
Lemma lock_iff_inFlight (s : State) :
  reachable s ->
  processingLock s = match inFlight s with Some _ => true | None => false end.
Proof.
  induction 1 as [|s e Hs IH]; [reflexivity|].
  destruct e as [t f| |net| |]; simpl.
  - destruct (processText_frame t f s) as (_ & _ & _ & _ & _ & -> & -> & _). exact IH.
  - destruct (debounceTimer s) as [tm|]; [|exact IH].
    unfold debounceCallback; simpl.
    destruct (processingLock s) eqn:Hl; simpl; [rewrite Hl; exact IH|reflexivity].
  - destruct (inFlight s) as [t|] eqn:Hfs; [|rewrite Hfs; exact IH].
    destruct (executeRequest net) as [r|]; [|rewrite Hfs; exact IH].
    unfold settle.
    match goal with
    | |- context [finallyBlock ?t] =>
        destruct (finallyBlock_frame t) as (_ & _ & _ & _ & _ & -> & ->)
    end.
    reflexivity.
  - destruct (spacingTimers s) as [|tm rest]; [exact IH|].
    destruct (processText_frame (arg tm) true (set_spacingTimers rest s))
      as (_ & _ & _ & _ & _ & -> & -> & _).
    exact IH.
  - exact IH.
Qed.

Lemma firstInFlight_reachable (text : string) : reachable (firstInFlight text).
Proof. apply reachable_run. constructor. Qed.

Lemma secondInFlight_reachable (text : string) : reachable (secondInFlight text).
Proof. apply reachable_run. constructor. Qed.

(** C5 (as stated, refuted). The body [{}] answers the request in flight:
    sentiment and keywords stay as they were, but no error is surfaced;
    and a body without sentiment that carries a keywords array does change
    the keywords. *)
Lemma missing_sentiment_no_error_counterexample :
  inFlight (firstInFlight "I love this!") = Some "I love this!" /\
  executeRequest (answers emptyObject) = Some (mkRun (Responded emptyObject) 1 []) /\
  error (step (firstInFlight "I love this!") (Settle (answers emptyObject))) = None /\
  keywords (secondInFlight "It is fine.") = ["love"; "amazing"] /\
  keywords (step (secondInFlight "It is fine.")
              (Settle (answers (DataObject SentimentUndefined (KeywordsArray ["fine"])))))
    = ["fine"].
Proof. repeat split. Qed.

(** C5 (amended). When the request in flight settles with a response
    whose body has no sentiment object, the sentiment is left as it was
    and no error is surfaced (the error cell stays empty, as cleared when
    the request started); the keywords are left as they were unless the
    body carries a keywords array, which replaces them. *)
Theorem missing_sentiment_is_silent (s : State) (text : string)
    (net : nat -> Outcome) (r : Run) (data : ResponseData) :
  reachable s ->
  inFlight s = Some text ->
  executeRequest net = Some r ->
  exit r = Responded data ->
  sentimentTruthy (getSentiment data) && sentimentIsObject (getSentiment data) = false ->
  sentiment (step s (Settle net)) = sentiment s /\
  error (step s (Settle net)) = None /\
  keywords (step s (Settle net)) =
    match getKeywords data with
    | KeywordsArray items => items
    | _ => keywords s
    end.
Proof.
  intros Hreach Hf Hr He Hguard. rewrite (step_settle s text net r Hf Hr).
  pose proof (settle_results text r s) as H. rewrite He in H.
  destruct H as (Hs & Hk & Herr & _). rewrite Hs, Hk, Herr.
  split; [|split; [apply (inFlight_error_cleared s Hreach text Hf)|reflexivity]].
  destruct data as [|t|sf kf]; try reflexivity.
  destruct sf as [| |t|o]; try reflexivity. discriminate Hguard.
Qed.

Lemma missing_sentiment_is_silent_witness :
  sentiment (step (secondInFlight "It is fine.") (Settle (answers emptyObject)))
    = Some (mkSentiment 0.9 "positive" "strong") /\
  error (step (secondInFlight "It is fine.") (Settle (answers emptyObject))) = None /\
  keywords (step (secondInFlight "It is fine.") (Settle (answers emptyObject)))
    = ["love"; "amazing"].
Proof.
  exact (missing_sentiment_is_silent (secondInFlight "It is fine.") "It is fine."
           (answers emptyObject) (mkRun (Responded emptyObject) 1 []) emptyObject
           (secondInFlight_reachable "It is fine.") eq_refl eq_refl eq_refl eq_refl).
Defined.

(** C6 (as stated, refuted). A response whose keywords field is the empty
    array replaces the keywords: the previous ones are lost. *)
Lemma empty_keywords_array_counterexample :
  inFlight (secondInFlight "It is fine.") = Some "It is fine." /\
  keywords (secondInFlight "It is fine.") = ["love"; "amazing"] /\
  keywords (step (secondInFlight "It is fine.")
              (Settle (answers (DataObject (SentimentObj (mkSentiment 0.5 "neutral" "weak"))
                                           (KeywordsArray [])))))
    = [].
Proof. repeat split. Qed.

(** C6 (amended). When the request in flight settles with a response, the
    keywords are replaced by the body's keywords field whenever that field
    is an array, the empty array included; they are left as they were when
    the field is absent or is not an array.  The application appends a
    batch to its keyword log only when the new keywords are non-empty. *)
Theorem keywords_replaced_by_any_array (s : State) (text : string)
    (net : nat -> Outcome) (r : Run) (data : ResponseData) :
  inFlight s = Some text ->
  executeRequest net = Some r ->
  exit r = Responded data ->
  keywords (step s (Settle net)) =
    match getKeywords data with
    | KeywordsArray items => items
    | KeywordsUndefined | KeywordsNull | KeywordsPrimitive _ | KeywordsObject => keywords s
    end /\
  (forall (now : Z) (currentKeywords : list App.KeywordEntry),
      getKeywords data = KeywordsArray [] ->
      App.keywordsEffect now (keywords (step s (Settle net))) currentKeywords
        = currentKeywords).
Proof.
  intros Hf Hr He. rewrite (step_settle s text net r Hf Hr).
  pose proof (settle_results text r s) as H. rewrite He in H.
  destruct H as (_ & Hk & _). rewrite Hk. split.
  - destruct (getKeywords data); reflexivity.
  - intros now currentKeywords ->. reflexivity.
Qed.

Lemma keywords_replaced_by_any_array_witness :
  keywords (step (firstInFlight "I love this!") (Settle (answers exampleBody)))
    = ["love"; "amazing"] /\
  keywords (step (secondInFlight "It is fine.") (Settle (answers emptyObject)))
    = ["love"; "amazing"] /\
  keywords (step (secondInFlight "It is fine.")
              (Settle (answers (DataObject SentimentUndefined (KeywordsArray [])))))
    = [].
Proof.
  split; [|split].
  - exact (proj1 (keywords_replaced_by_any_array (firstInFlight "I love this!")
                    "I love this!" (answers exampleBody)
                    (mkRun (Responded exampleBody) 1 []) exampleBody
                    eq_refl eq_refl eq_refl)).
  - exact (proj1 (keywords_replaced_by_any_array (secondInFlight "It is fine.")
                    "It is fine." (answers emptyObject)
                    (mkRun (Responded emptyObject) 1 []) emptyObject
                    eq_refl eq_refl eq_refl)).
  - exact (proj1 (keywords_replaced_by_any_array (secondInFlight "It is fine.")
                    "It is fine."
                    (answers (DataObject SentimentUndefined (KeywordsArray [])))
                    (mkRun (Responded (DataObject SentimentUndefined (KeywordsArray []))) 1 [])
                    (DataObject SentimentUndefined (KeywordsArray []))
                    eq_refl eq_refl eq_refl)).
Defined.

(** *** Failed requests *)

Lemma errorMessageOf_classes :
  errorMessageOf (statusError 400) = "Invalid text format" /\
  errorMessageOf (statusError 500) = "Sentiment analysis service unavailable" /\
  errorMessageOf (statusError 503) = "Service temporarily unavailable" /\
  errorMessageOf networkError
    = "Cannot connect to backend. Please ensure the server is running.".
Proof. repeat split. Qed.


(** What settling does to the log of calls and to the error cell when the
    loop throws. *)
Lemma settle_threw (text : string) (r : Run) (s : State) (err : HttpError) :
  exit r = Threw err ->
  posted (settle text r s) = posted s ++ replicate (attempts r - 1) text /\
  error (settle text r s) = Some (errorMessageOf err) /\
  processingLock (settle text r s) = false.
Proof.
  intros He. unfold settle. rewrite He.
  match goal with
  | |- context [finallyBlock ?t] =>
      destruct (finallyBlock_frame t) as (_ & _ & -> & _ & -> & _ & ->)
  end.
  repeat split.
Qed.

(** C8 (the code at a cancelled request).  A request cancelled through
    the abort signal passed to [axios.post] is rejected with an error
    named [CanceledError], with code [ERR_CANCELED].  The loop tests for
    the name [AbortError] and the code [ECONNABORTED], so it does not take
    that error for an abort: it waits 1000 ms, calls again, waits 2000 ms,
    calls a third time and throws.  Three calls are made instead of one,
    and an error message is surfaced. *)
Theorem cancellation_is_retried (s : State) (text message : string)
    (response : option ErrorResponse) (request : bool) :
  inFlight s = Some text ->
  isAbort (canceled message response request) = false /\
  executeRequest (fails (canceled message response request))
    = Some (mkRun (Threw (canceled message response request)) 3 [1000; 2000]) /\
  posted (step s (Settle (fails (canceled message response request))))
    = posted s ++ [text; text] /\
  error (step s (Settle (fails (canceled message response request))))
    = Some (errorMessageOf (canceled message response request)).
Proof.
  intros Hf.
  assert (Hr : executeRequest (fails (canceled message response request))
               = Some (mkRun (Threw (canceled message response request)) 3 [1000; 2000]))
    by reflexivity.
  split; [reflexivity|]. split; [exact Hr|].
  rewrite (step_settle s text _ _ Hf Hr).
  destruct (settle_threw text (mkRun (Threw (canceled message response request)) 3
                                 [1000; 2000]) s _ eq_refl) as (Hp & He & _).
  split; [exact Hp|exact He].
Qed.

(** The statement at the first request of a fresh hook, cancelled while
    in flight: the text is posted three times and the connection message
    is shown. *)
Lemma cancellation_is_retried_witness :
  posted (step (firstInFlight "I love this!") (Settle (fails (canceled "canceled" None true))))
    = ["I love this!"; "I love this!"; "I love this!"] /\
  error (step (firstInFlight "I love this!") (Settle (fails (canceled "canceled" None true))))
    = Some "Cannot connect to backend. Please ensure the server is running.".
Proof.
  destruct (cancellation_is_retried (firstInFlight "I love this!") "I love this!"
              "canceled" None true eq_refl) as (_ & _ & Hp & He).
  split; [exact Hp|exact He].
Defined.




(** *** The dedup key *)

(** A call with the text that is the dedup key is ignored. *)
Lemma processText_same_text (s : State) (isFinal : bool) :
  processText (lastProcessedText s) isFinal s = s.
Proof.
  unfold processText. destruct (negb isFinal); [reflexivity|].
  destruct (String.eqb (lastProcessedText s) ""
            || (String.length (trim (lastProcessedText s)) <? MIN_TEXT_LENGTH)%nat);
    [reflexivity|].
  rewrite String.eqb_refl. reflexivity.
Qed.

(** C10 (as stated, refuted). The request is answered with the JSON body
    [null]: nothing failed, yet the dedup key is not recorded, and the same
    text submitted again is accepted and starts the debounce timer. *)
Lemma null_body_not_recorded_counterexample :
  inFlight (firstInFlight "I love this!") = Some "I love this!" /\
  executeRequest (answers DataNull) = Some (mkRun (Responded DataNull) 1 []) /\
  lastProcessedText (step (firstInFlight "I love this!") (Settle (answers DataNull))) = "" /\
  error (step (firstInFlight "I love this!") (Settle (answers DataNull))) = None /\
  debounceTimer (run (firstInFlight "I love this!")
                   [Settle (answers DataNull); Submit "I love this!" true])
    = Some (mkTimeout 500 "I love this!").
Proof. repeat split. Qed.

(** C10 (amended). When the request in flight settles with a response
    whose body is truthy (any object, with or without a sentiment
    object), its text becomes the dedup key and a call with that text is
    then ignored; when the body is falsy (null, an empty body, 0, false),
    when the request was aborted, and when it failed, the dedup key is
    left as it was. *)
Theorem dedup_key_recorded_for_truthy_body (s : State) (text : string)
    (net : nat -> Outcome) (r : Run) :
  inFlight s = Some text ->
  executeRequest net = Some r ->
  match exit r with
  | Responded data =>
      if dataTruthy data then
        lastProcessedText (step s (Settle net)) = text /\
        forall isFinal, step (step s (Settle net)) (Submit text isFinal) = step s (Settle net)
      else lastProcessedText (step s (Settle net)) = lastProcessedText s
  | NoResponse | Threw _ => lastProcessedText (step s (Settle net)) = lastProcessedText s
  end.
Proof.
  intros Hf Hr. rewrite (step_settle s text net r Hf Hr).
  pose proof (settle_results text r s) as H.
  destruct (exit r) as [data| |err]; try (destruct H as (_ & _ & _ & Hl); exact Hl).
  destruct H as (_ & _ & _ & Hl). destruct (dataTruthy data); [|exact Hl].
  split; [exact Hl|]. intros isFinal. simpl.
  rewrite <- Hl at 1. apply processText_same_text.
Qed.

Lemma dedup_key_recorded_for_truthy_body_witness :
  lastProcessedText (step (firstInFlight "I love this!") (Settle (answers emptyObject)))
    = "I love this!" /\
  step (step (firstInFlight "I love this!") (Settle (answers emptyObject)))
       (Submit "I love this!" true)
    = step (firstInFlight "I love this!") (Settle (answers emptyObject)).
Proof.
  pose proof (dedup_key_recorded_for_truthy_body (firstInFlight "I love this!")
                "I love this!" (answers emptyObject)
                (mkRun (Responded emptyObject) 1 []) eq_refl eq_refl) as H.
  simpl in H. destruct H as [Hl Hi]. split; [exact Hl|exact (Hi true)].
Defined.

(** *** The pending queue *)

(** A debounce timer that expires while the lock is held appends its text
    to the queue and does nothing else. *)
Lemma debounceFire_locked (s : State) (t : Timeout) :
  processingLock s = true -> debounceTimer s = Some t ->
  step s DebounceFire = set_requestQueue (requestQueue s ++ [arg t]) (set_debounceTimer None s).
Proof.
  intros Hl Ht. simpl. rewrite Ht. unfold debounceCallback. simpl. rewrite Hl. reflexivity.
Qed.

Lemma queuedBehind_spec (n : nat) :
  reachable (queuedBehind n) /\
  processingLock (queuedBehind n) = true /\
  lastProcessedText (queuedBehind n) = "" /\
  requestQueue (queuedBehind n) = replicate n "next sentence".
Proof.
  induction n as [|n (Hr & Hl & Hk & Hq)].
  - split; [apply firstInFlight_reachable|]. repeat split.
  - split; [apply reachable_run; exact Hr|].
    assert (Hsub : step (queuedBehind n) (Submit "next sentence" true)
                   = set_debounceTimer (Some (mkTimeout DEBOUNCE_DELAY "next sentence"))
                       (queuedBehind n)).
    { simpl. unfold processText. rewrite Hk. reflexivity. }
    change (queuedBehind (S n))
      with (step (step (queuedBehind n) (Submit "next sentence" true)) DebounceFire).
    rewrite Hsub.
    rewrite (debounceFire_locked _ (mkTimeout DEBOUNCE_DELAY "next sentence"))
      by (simpl; first [assumption | reflexivity]).
    simpl. rewrite Hl, Hk, Hq. repeat split.
    change ("next sentence" :: replicate n "next sentence")
      with (replicate (S n) "next sentence").
    rewrite replicate_S_end. reflexivity.
Qed.

(** C4 (as stated, refuted). Two debounce timers expire while the first
    request is in flight: the queue then holds two texts, the older one
    still ahead of the newer one. *)
Lemma queue_holds_two_counterexample :
  reachable twoQueued /\
  inFlight twoQueued = Some "first sentence" /\
  requestQueue twoQueued = ["second sentence"; "third sentence"].
Proof.
  split; [apply reachable_run; constructor|]. split; reflexivity.
Qed.

(** C4 (amended). The pending queue is a first-in first-out list without
    bound: a text whose debounce timer expires while a request is in
    flight is appended behind the texts already queued, which are all
    kept, and no request is issued for it; queues of every length are
    reachable. *)
Theorem queue_appends_without_bound :
  (forall (s : State) (t : Timeout),
      processingLock s = true -> debounceTimer s = Some t ->
      requestQueue (step s DebounceFire) = requestQueue s ++ [arg t] /\
      posted (step s DebounceFire) = posted s /\
      inFlight (step s DebounceFire) = inFlight s) /\
  (forall n : nat, exists s, reachable s /\ length (requestQueue s) = n).
Proof.
  split.
  - intros s t Hl Ht. rewrite (debounceFire_locked s t Hl Ht). repeat split.
  - intros n. exists (queuedBehind n).
    destruct (queuedBehind_spec n) as (Hr & _ & _ & Hq).
    split; [exact Hr|]. rewrite Hq. apply length_replicate.
Qed.

Lemma queue_appends_without_bound_witness :
  requestQueue (step (run (firstInFlight "first sentence") [Submit "second sentence" true])
                  DebounceFire)
    = ["second sentence"] /\
  exists s, reachable s /\ length (requestQueue s) = 5%nat.
Proof.
  destruct queue_appends_without_bound as [Happ Hunb]. split.
  - exact (proj1 (Happ (run (firstInFlight "first sentence") [Submit "second sentence" true])
                       (mkTimeout 500 "second sentence") eq_refl eq_refl)).
  - exact (Hunb 5%nat).
Defined.

(** *** Debouncing *)

Lemma long_text_not_empty (text : string) :
  (MIN_TEXT_LENGTH <= String.length (trim text))%nat -> String.eqb text "" = false.
Proof.
  destruct text as [|c rest]; [|reflexivity].
  unfold MIN_TEXT_LENGTH. simpl. lia.
Qed.

(** A final text that passes the three guards restarts the debounce timer
    with that text, and changes nothing else. *)
Lemma processText_accepts (s : State) (text : string) :
  (MIN_TEXT_LENGTH <= String.length (trim text))%nat ->
  text <> lastProcessedText s ->
  processText text true s = set_debounceTimer (Some (mkTimeout DEBOUNCE_DELAY text)) s.
Proof.
  intros Hlen Hne. unfold processText. simpl.
  rewrite (long_text_not_empty text Hlen). simpl.
  replace (String.length (trim text) <? MIN_TEXT_LENGTH)%nat with false
    by (symmetry; apply Nat.ltb_ge; exact Hlen).
  replace (String.eqb text (lastProcessedText s)) with false
    by (symmetry; apply String.eqb_neq; exact Hne).
  reflexivity.
Qed.

(** A call that fails one of the three guards changes nothing. *)
Lemma processText_ignores (s : State) (text : string) (isFinal : bool) :
  isFinal = false \/
  (String.length (trim text) < MIN_TEXT_LENGTH)%nat \/
  text = lastProcessedText s ->
  processText text isFinal s = s.
Proof.
  intros [->|[Hshort| ->]].
  - reflexivity.
  - unfold processText. destruct (negb isFinal); [reflexivity|].
    replace (String.length (trim text) <? MIN_TEXT_LENGTH)%nat with true
      by (symmetry; apply Nat.ltb_lt; exact Hshort).
    rewrite orb_true_r. reflexivity.
  - apply processText_same_text.
Qed.

(** Accepted calls in a row leave one pending timer, holding the last
    text. *)
Lemma submitAll_collapses (texts : list string) :
  forall (s : State) (final : string),
    Forall (fun t => (MIN_TEXT_LENGTH <= String.length (trim t))%nat /\
                     t <> lastProcessedText s) (texts ++ [final]) ->
    submitAll s (texts ++ [final])
      = set_debounceTimer (Some (mkTimeout DEBOUNCE_DELAY final)) s.
Proof.
  induction texts as [|t texts IH]; intros s final Hall.
  - apply Forall_cons in Hall as [[Hlen Hne] _].
    unfold submitAll. simpl. apply processText_accepts; assumption.
  - change ((t :: texts) ++ [final]) with (t :: (texts ++ [final])) in *.
    apply Forall_cons in Hall as [[Hlen Hne] Hall].
    change (submitAll s (t :: texts ++ [final]))
      with (submitAll (processText t true s) (texts ++ [final])).
    rewrite (processText_accepts s t Hlen Hne).
    rewrite IH by exact Hall. reflexivity.
Qed.

(** C7. One or more calls with [isFinal = true], each with a text of
    trimmed length at least 3 that differs from the last processed text,
    arriving with no debounce expiry in between while no request is in
    flight: no request is issued by the calls themselves and the queue is
    untouched, a single timer of 500 ms is pending and holds the last
    text; when it expires exactly one request is posted, with the last
    text as body, and nothing is queued; if that call is answered, no
    other request was posted.  A call with [isFinal = false], with a
    trimmed length below 3, or with the last processed text changes
    nothing at all. *)
Theorem debounce_collapses_to_last (s : State) (texts : list string) (final : string) :
  processingLock s = false ->
  Forall (fun t => (MIN_TEXT_LENGTH <= String.length (trim t))%nat /\
                   t <> lastProcessedText s) (texts ++ [final]) ->
  submitAll s (texts ++ [final])
    = set_debounceTimer (Some (mkTimeout DEBOUNCE_DELAY final)) s /\
  posted (submitAll s (texts ++ [final])) = posted s /\
  requestQueue (submitAll s (texts ++ [final])) = requestQueue s /\
  posted (step (submitAll s (texts ++ [final])) DebounceFire) = posted s ++ [final] /\
  inFlight (step (submitAll s (texts ++ [final])) DebounceFire) = Some final /\
  requestQueue (step (submitAll s (texts ++ [final])) DebounceFire) = requestQueue s /\
  debounceTimer (step (submitAll s (texts ++ [final])) DebounceFire) = None /\
  (forall data : ResponseData,
      posted (run (submitAll s (texts ++ [final])) [DebounceFire; Settle (answers data)])
        = posted s ++ [final]) /\
  (forall (s0 : State) (text : string) (isFinal : bool),
      isFinal = false \/
      (String.length (trim text) < MIN_TEXT_LENGTH)%nat \/
      text = lastProcessedText s0 ->
      step s0 (Submit text isFinal) = s0).
Proof.
  intros Hlock Hall. rewrite (submitAll_collapses texts s final Hall).
  assert (Hfire : step (set_debounceTimer (Some (mkTimeout DEBOUNCE_DELAY final)) s)
                       DebounceFire
                  = set_posted (posted s ++ [final])
                      (set_inFlight (Some final)
                         (set_error None
                            (set_isProcessing true
                               (set_processingLock true (set_debounceTimer None s)))))).
  { simpl. unfold debounceCallback. simpl. rewrite Hlock. reflexivity. }
  split; [reflexivity|]. split; [reflexivity|]. split; [reflexivity|].
  split; [rewrite Hfire; reflexivity|]. split; [rewrite Hfire; reflexivity|].
  split; [rewrite Hfire; reflexivity|]. split; [rewrite Hfire; reflexivity|].
  split.
  - intros data.
    change (run ?x [DebounceFire; Settle (answers data)])
      with (step (step x DebounceFire) (Settle (answers data))).
    rewrite Hfire.
    rewrite (step_settle _ final (answers data) (mkRun (Responded data) 1 []))
      by reflexivity.
    unfold settle.
    match goal with
    | |- context [finallyBlock ?t] =>
        destruct (finallyBlock_frame t) as (_ & _ & _ & _ & -> & _)
    end.
    destruct data as [|[|]|[| | [|] |incoming] [| | [|] | |items]]; simpl;
      rewrite app_nil_r; reflexivity.
  - intros s0 text isFinal H. apply processText_ignores. exact H.
Qed.

Lemma debounce_collapses_to_last_witness :
  posted (step (submitAll init ["I love"; "I love this"; "I love this!"]) DebounceFire)
    = ["I love this!"] /\
  requestQueue (step (submitAll init ["I love"; "I love this"; "I love this!"]) DebounceFire)
    = [] /\
  step init (Submit "ok" true) = init.
Proof.
  assert (Hall : Forall (fun t => (MIN_TEXT_LENGTH <= String.length (trim t))%nat /\
                                  t <> lastProcessedText init)
                        (["I love"; "I love this"] ++ ["I love this!"])).
  { repeat constructor; (vm_compute; lia) || discriminate. }
  destruct (debounce_collapses_to_last init ["I love"; "I love this"] "I love this!"
              eq_refl Hall) as (_ & _ & _ & Hp & _ & Hq & _ & _ & Hign).
  split; [exact Hp|]. split; [exact Hq|].
  apply Hign. right. left. vm_compute. lia.
Defined.

End SentimentFacts.

Module AudioUtilsFacts.
Import AudioUtils.

Lemma ceilDiv_gt (a b i : Z) : 0 < b -> (i < ceilDiv a b <-> i * b < a).
Proof.
  intros Hb. unfold ceilDiv. split; intros H.
  - assert (H1 : (- a) / b < - i) by lia.
    destruct (Z_lt_le_dec (i * b) a) as [|Hge]; [assumption|exfalso].
    assert (- i <= (- a) / b) by (apply Z.div_le_lower_bound; lia). lia.
  - assert ((- a) / b < - i) by (apply Z.div_lt_upper_bound; lia). lia.
Qed.

Lemma ceilDiv_nonneg (a b : Z) : 0 <= a -> 0 < b -> 0 <= ceilDiv a b.
Proof.
  intros Ha Hb. destruct (Z_lt_le_dec (ceilDiv a b) 0) as [Hneg|]; [|assumption].
  assert (H : ceilDiv a b < ceilDiv a b + 1) by lia.
  assert (Hlt : -1 < ceilDiv a b) by (apply ceilDiv_gt; lia). lia.
Qed.

Lemma take_upto_length {A : Type} (l : list A) (x : Z) :
  take (Z.to_nat (Z.min x (Z.of_nat (length l)))) l = take (Z.to_nat x) l.
Proof.
  destruct (Z_le_gt_dec x (Z.of_nat (length l))) as [Hle|Hgt].
  - rewrite Z.min_l by assumption. reflexivity.
  - rewrite Z.min_r by lia. rewrite !take_ge by lia. reflexivity.
Qed.

(** The chunk pushed for index [i]: it starts where the chunks before it
    end, and holds [chunkSize] elements or what is left of the data. *)
Lemma slice_chunk {A : Type} (audioData : list A) (chunkSize i : Z) :
  0 < chunkSize -> 0 <= i -> i * chunkSize < Z.of_nat (length audioData) ->
  take (Z.to_nat (i * chunkSize)) audioData
    ++ slice audioData (i * chunkSize)
         (Z.min (i * chunkSize + chunkSize) (Z.of_nat (length audioData)))
  = take (Z.to_nat ((i + 1) * chunkSize)) audioData /\
  Z.of_nat (length (slice audioData (i * chunkSize)
                      (Z.min (i * chunkSize + chunkSize) (Z.of_nat (length audioData)))))
  = Z.min chunkSize (Z.of_nat (length audioData) - i * chunkSize).
Proof.
  intros Hcs Hi Hlt. unfold slice.
  assert (Hs : 0 <= i * chunkSize) by (apply Z.mul_nonneg_nonneg; lia).
  split.
  - rewrite take_take_drop.
    replace (Z.to_nat (i * chunkSize)
             + Z.to_nat (Z.min (i * chunkSize + chunkSize) (Z.of_nat (length audioData))
                         - i * chunkSize))%nat
      with (Z.to_nat (Z.min ((i + 1) * chunkSize) (Z.of_nat (length audioData)))) by lia.
    apply take_upto_length.
  - rewrite length_take, length_drop. lia.
Qed.

Lemma chunkLoop_spec {A : Type} (audioData : list A) (chunkSize : Z) (fuel : nat) :
  0 < chunkSize ->
  forall (i : Z) (chunks : list (list A)),
    0 <= i ->
    Z.of_nat fuel = ceilDiv (Z.of_nat (length audioData)) chunkSize - i ->
    concat chunks = take (Z.to_nat (i * chunkSize)) audioData ->
    Z.of_nat (length chunks) = i ->
    (forall (k : nat) (c : list A),
        chunks !! k = Some c ->
        Z.of_nat (length c)
        = Z.min chunkSize (Z.of_nat (length audioData) - Z.of_nat k * chunkSize)) ->
    let result :=
      chunkLoop fuel i (ceilDiv (Z.of_nat (length audioData)) chunkSize)
                audioData chunkSize chunks in
    concat result = audioData /\
    Z.of_nat (length result) = ceilDiv (Z.of_nat (length audioData)) chunkSize /\
    (forall (k : nat) (c : list A),
        result !! k = Some c ->
        Z.of_nat (length c)
        = Z.min chunkSize (Z.of_nat (length audioData) - Z.of_nat k * chunkSize)).
Proof.
  intros Hcs. induction fuel as [|fuel IH]; intros i chunks Hi Hfuel Hcat Hlen Hsz; simpl.
  - split; [|split; [lia|exact Hsz]].
    rewrite Hcat. apply take_ge.
    assert (Hn : ~ i * chunkSize < Z.of_nat (length audioData)).
    { intros Hlt. apply (ceilDiv_gt _ chunkSize i Hcs) in Hlt. lia. }
    assert (0 <= i * chunkSize) by (apply Z.mul_nonneg_nonneg; lia). lia.
  - destruct (Z.ltb_spec i (ceilDiv (Z.of_nat (length audioData)) chunkSize)) as [Hlt|Hge];
      [|lia].
    assert (Hdata : i * chunkSize < Z.of_nat (length audioData))
      by (apply (ceilDiv_gt _ chunkSize i Hcs); exact Hlt).
    destruct (slice_chunk audioData chunkSize i Hcs Hi Hdata) as [Htake Hslice].
    apply IH.
    + lia.
    + lia.
    + rewrite concat_app. simpl. rewrite app_nil_r, Hcat. exact Htake.
    + rewrite length_app. simpl. lia.
    + intros k c Hk.
      destruct (decide (k < length chunks)%nat) as [Hin|Hout].
      * rewrite lookup_app_l in Hk by assumption. apply Hsz. exact Hk.
      * rewrite lookup_app_r in Hk by lia.
        destruct (k - length chunks)%nat as [|m] eqn:Hkm; [|destruct m; discriminate].
        simpl in Hk. injection Hk as <-.
        rewrite Hslice. replace (Z.of_nat k) with i by lia. reflexivity.
Qed.

(** X1. Chunking loses and duplicates nothing: the chunks, put end to end,
    are the data; a chunk size of zero or less is refused. *)
Theorem chunkAudioData_concat {A : Type} (audioData : list A) (chunkSize : Z) :
  (0 < chunkSize ->
   exists chunks, chunkAudioData audioData chunkSize = inr chunks /\
                  concat chunks = audioData) /\
  (chunkSize <= 0 ->
   chunkAudioData audioData chunkSize = inl "Invalid chunking parameters").
Proof.
  unfold chunkAudioData. split; intros Hcs.
  - destruct (Z.leb_spec chunkSize 0) as [|_]; [lia|].
    eexists. split; [reflexivity|].
    assert (Hn := ceilDiv_nonneg (Z.of_nat (length audioData)) chunkSize
                    ltac:(lia) Hcs).
    apply (chunkLoop_spec audioData chunkSize _ Hcs 0 []); simpl;
      try reflexivity; try lia.
    intros k c Hk. discriminate.
  - destruct (Z.leb_spec chunkSize 0) as [_|]; [reflexivity|lia].
Qed.

Lemma chunkAudioData_concat_witness :
  exists chunks, chunkAudioData [1; 2; 3; 4; 5; 6; 7] 3 = inr chunks /\
                 concat chunks = [1; 2; 3; 4; 5; 6; 7].
Proof.
  apply (proj1 (chunkAudioData_concat [1; 2; 3; 4; 5; 6; 7] 3)). lia.
Defined.

(** X2. The number and the sizes of the chunks: there are
    ceil(length / chunkSize) of them (none for empty data), every chunk
    holds between one and [chunkSize] elements, and every chunk but the
    last holds exactly [chunkSize]. *)
Theorem chunkAudioData_sizes {A : Type} (audioData : list A) (chunkSize : Z) :
  0 < chunkSize ->
  exists chunks,
    chunkAudioData audioData chunkSize = inr chunks /\
    Z.of_nat (length chunks) = ceilDiv (Z.of_nat (length audioData)) chunkSize /\
    (audioData = [] -> chunks = []) /\
    (forall (k : nat) (c : list A),
        chunks !! k = Some c ->
        1 <= Z.of_nat (length c) <= chunkSize /\
        ((k + 1 < length chunks)%nat -> Z.of_nat (length c) = chunkSize)).
Proof.
  intros Hcs. unfold chunkAudioData.
  destruct (Z.leb_spec chunkSize 0) as [|_]; [lia|].
  eexists. split; [reflexivity|].
  assert (Hn := ceilDiv_nonneg (Z.of_nat (length audioData)) chunkSize ltac:(lia) Hcs).
  destruct (chunkLoop_spec audioData chunkSize
              (Z.to_nat (ceilDiv (Z.of_nat (length audioData)) chunkSize)) Hcs 0 [])
    as (Hcat & Hlen & Hsz); simpl; try reflexivity; try lia.
  { intros k c Hk. discriminate. }
  split; [exact Hlen|]. split.
  - intros ->. simpl in *. reflexivity.
  - intros k c Hk. pose proof (Hsz k c Hk) as Hc.
    assert (Hklt : Z.of_nat k < ceilDiv (Z.of_nat (length audioData)) chunkSize).
    { apply lookup_lt_Some in Hk. lia. }
    apply (ceilDiv_gt _ chunkSize _ Hcs) in Hklt.
    split; [lia|]. intros Hnext.
    assert (Hk1 : Z.of_nat k + 1 < ceilDiv (Z.of_nat (length audioData)) chunkSize) by lia.
    apply (ceilDiv_gt _ chunkSize _ Hcs) in Hk1. lia.
Qed.

Lemma chunkAudioData_sizes_witness :
  exists chunks, chunkAudioData [1; 2; 3; 4; 5; 6; 7] 3 = inr chunks /\
                 Z.of_nat (length chunks) = 3.
Proof.
  destruct (chunkAudioData_sizes [1; 2; 3; 4; 5; 6; 7] 3 ltac:(lia))
    as (chunks & Heq & Hlen & _).
  exists chunks. split; [exact Heq|]. rewrite Hlen. reflexivity.
Defined.

(** *** The debounce helper *)

Lemma debounceInv_sublist {A : Type} (calls : list A) (d : Debounced A) :
  debounceInv calls d -> invoked d `sublist_of` calls.
Proof.
  unfold debounceInv. destruct (timeout d) as [args|]; [|trivial].
  intros (before & -> & Hsub). apply sublist_inserts_r. exact Hsub.
Qed.

Lemma debounceInv_step {A : Type} (calls : list A) (d : Debounced A)
    (e : DebounceEvent A) :
  debounceInv calls d ->
  debounceInv (calls ++ callsOf [e]) (debounceStep d e).
Proof.
  intros Hinv. destruct e as [args|]; simpl.
  - unfold debounceInv; simpl. exists calls. split; [reflexivity|].
    apply debounceInv_sublist. exact Hinv.
  - rewrite app_nil_r. unfold debounceInv in *.
    destruct (timeout d) as [args|] eqn:Ht; simpl; [|rewrite Ht; exact Hinv].
    destruct Hinv as (before & -> & Hsub).
    apply sublist_app; [exact Hsub|reflexivity].
Qed.

Lemma debounceInv_run {A : Type} (es : list (DebounceEvent A)) :
  forall (calls : list A) (d : Debounced A),
    debounceInv calls d ->
    debounceInv (calls ++ callsOf es) (debounceRun d es).
Proof.
  induction es as [|e es IH]; intros calls d Hinv.
  - simpl. rewrite app_nil_r. exact Hinv.
  - change (debounceRun d (e :: es)) with (debounceRun (debounceStep d e) es).
    replace (callsOf (e :: es)) with (callsOf [e] ++ callsOf es)
      by (destruct e; reflexivity).
    rewrite app_assoc. apply IH. apply debounceInv_step. exact Hinv.
Qed.

Lemma debounce_calls_pending {A : Type} (calls : list A) :
  forall (d : Debounced A) (last : A),
    debounceRun d (map Call (calls ++ [last]))
    = mkDebounced (Some last) (invoked d).
Proof.
  induction calls as [|c calls IH]; intros d last; [reflexivity|].
  change (debounceRun d (map Call ((c :: calls) ++ [last])))
    with (debounceRun (debounceStep d (Call c)) (map Call (calls ++ [last]))).
  rewrite IH. reflexivity.
Qed.

(** X3. A function wrapped by [debounce] is only ever invoked with the
    arguments of calls made before, in the order of those calls and at
    most once per call; and after any number of calls with no expiry in
    between, the expiry invokes it exactly once, with the arguments of the
    last call. *)
Theorem debounce_invokes_latest {A : Type} :
  (forall es : list (DebounceEvent A),
      invoked (debounceRun (mkDebounced None []) es) `sublist_of` callsOf es) /\
  (forall (d : Debounced A) (calls : list A) (last : A),
      debounceRun d (map Call (calls ++ [last]) ++ [Expire])
      = mkDebounced None (invoked d ++ [last])).
Proof.
  split.
  - intros es. apply debounceInv_sublist.
    apply (debounceInv_run es [] (mkDebounced None [])).
    unfold debounceInv; simpl. reflexivity.
  - intros d calls last. unfold debounceRun. rewrite fold_left_app.
    fold (debounceRun d (map Call (calls ++ [last]))).
    rewrite debounce_calls_pending. reflexivity.
Qed.

End AudioUtilsFacts.

Module DeepgramTracesFacts.
Import Deepgram DeepgramTraces.

Section WithKey.
Variable apiKey : string.

Lemma Forall_filter_keep {A : Type} (P : A -> Prop) (Q : A -> Prop)
    `{!forall x, Decision (Q x)} (l : list A) :
  Forall P l -> Forall P (filter Q l).
Proof.
  rewrite !Forall_forall. intros Hall x Hx.
  apply list_elem_of_filter in Hx as [_ Hx]. apply Hall. exact Hx.
Qed.

Lemma connect_keeps (s : State) :
  reconnectAttempts (connect apiKey s) = reconnectAttempts s /\
  scheduled (connect apiKey s) = scheduled s /\
  timers (connect apiKey s) = timers s.
Proof. unfold connect. destruct (String.eqb apiKey ""); repeat split. Qed.

Lemma backoffDelay_computed (n : nat) :
  (n < 3)%nat -> backoffDelay (Z.min (1000 * 2 ^ Z.of_nat (S n)) 10000).
Proof.
  intros Hn. unfold backoffDelay.
  assert (H : n = 0%nat \/ n = 1%nat \/ n = 2%nat) by lia.
  destruct H as [->|[->| ->]]; vm_compute; auto.
Qed.

(** X7. In every reachable state at most three reconnects were attempted
    since the last successful open, and every delay ever scheduled is
    2000, 4000 or 8000 ms: the 10000 ms cap is never reached. *)
Theorem reconnect_attempts_bounded (s : State) :
  reachable apiKey s ->
  (reconnectAttempts s <= 3)%nat /\
  Forall backoffDelay (scheduled s) /\
  Forall (fun t => backoffDelay (snd t)) (timers s).
Proof.
  induction 1 as [|s e Hs (Ha & Hd & Ht)].
  - split; [simpl; lia|]. split; constructor.
  - destruct e as [| |t| |code|id|]; simpl.
    + destruct (connect_keeps s) as (-> & -> & ->). auto.
    + repeat split; [lia|assumption|assumption].
    + unfold onmessage. destruct (String.eqb t ""); auto.
    + auto.
    + unfold onclose.
      destruct (negb (code =? 1000)
                && (reconnectAttempts (stopAudioStreaming (set_isConnected false s)) <? 3)%nat)
        eqn:Hg; [|auto].
      apply andb_true_iff in Hg as [_ Hlt]. apply Nat.ltb_lt in Hlt. simpl in Hlt.
      simpl. split; [lia|].
      split; (apply Forall_app; split; [assumption|]);
        apply Forall_singleton; simpl; apply backoffDelay_computed; assumption.
    + destruct (isPending id s); [|auto].
      destruct (connect_keeps (clearTimeout id s)) as (-> & -> & ->). simpl.
      split; [assumption|]. split; [assumption|].
      apply Forall_filter_keep. assumption.
    + unfold disconnect.
      destruct (reconnectTimeout s) as [id|]; simpl;
        (split; [lia|]); (split; [assumption|]); [apply Forall_filter_keep|]; assumption.
Qed.

Lemma reachable_failedConnections (codes : list Z) :
  forall s, reachable apiKey s -> reachable apiKey (failedConnections apiKey s codes).
Proof.
  induction codes as [|code codes IH]; intros s Hs; [exact Hs|].
  apply (IH (failedConnection apiKey s code)).
  unfold failedConnection.
  destruct (reconnectTimeout (step apiKey s (Close code)));
    repeat apply reachable_step; exact Hs.
Qed.


Lemma existsb_filter_out {A : Type} (f : A -> bool) (Q : A -> Prop)
    `{!forall x, Decision (Q x)} (l : list A) :
  (forall x, Q x -> f x = false) -> existsb f (filter Q l) = false.
Proof.
  intros Hout. induction l as [|x l IH]; [reflexivity|].
  rewrite filter_cons. destruct (decide (Q x)) as [Hq|_]; [|exact IH].
  simpl. rewrite (Hout x Hq), IH. reflexivity.
Qed.

(** X9. [disconnect] can be called twice in a row: the second call changes
    nothing.  After it the hook is disconnected, the attempt counter is
    zero and the reconnect timer the hook remembered is no longer
    pending. *)
Theorem disconnect_idempotent (s : State) :
  disconnect (disconnect s) = disconnect s /\
  isConnected (disconnect s) = false /\
  ws (disconnect s) = false /\
  reconnectAttempts (disconnect s) = 0%nat /\
  reconnectTimeout (disconnect s) = None /\
  match reconnectTimeout s with
  | Some id => isPending id (disconnect s) = false
  | None => timers (disconnect s) = timers s
  end.
Proof.
  unfold disconnect. destruct (reconnectTimeout s) as [id|] eqn:Hid; simpl.
  - repeat split. unfold isPending; simpl.
    apply existsb_filter_out. intros t Ht. apply Nat.eqb_neq. exact Ht.
  - rewrite Hid. repeat split.
Qed.

(** X10. [disconnect] does not disarm the close handler.  A close event with
    a code other than 1000 that arrives after [disconnect] (as when the
    socket was still connecting) schedules a reconnect after 2000 ms, and
    when that timer expires a new socket is opened. *)
Theorem close_after_disconnect_reconnects (s : State) (code : Z) :
  code <> 1000 ->
  String.eqb apiKey "" = false ->
  scheduled (step apiKey (disconnect s) (Close code)) = scheduled s ++ [2000] /\
  reconnectTimeout (step apiKey (disconnect s) (Close code)) = Some (nextTimerId s) /\
  isPending (nextTimerId s) (step apiKey (disconnect s) (Close code)) = true /\
  ws (run apiKey (disconnect s) [Close code; TimerFire (nextTimerId s)]) = true.
Proof.
  intros Hcode Hkey.
  assert (Hnext : nextTimerId (disconnect s) = nextTimerId s).
  { unfold disconnect. destruct (reconnectTimeout s); reflexivity. }
  assert (Hsched : scheduled (disconnect s) = scheduled s).
  { unfold disconnect. destruct (reconnectTimeout s); reflexivity. }
  destruct (disconnect_idempotent s) as (_ & _ & _ & Hzero & _).
  destruct (DeepgramFacts.onclose_schedules (disconnect s) code Hcode ltac:(lia))
    as (_ & Hs & Hr & Ht).
  change (step apiKey (disconnect s) (Close code)) with (onclose code (disconnect s)).
  rewrite Hs, Hr, Hzero, Hsched, Hnext.
  assert (Hpend : isPending (nextTimerId s) (onclose code (disconnect s)) = true).
  { unfold isPending. rewrite Ht, existsb_app, Hnext. simpl.
    rewrite Nat.eqb_refl. simpl. apply orb_true_r. }
  repeat split; [exact Hpend|].
  unfold run. simpl fold_left.
  change (step apiKey (disconnect s) (Close code)) with (onclose code (disconnect s)).
  rewrite Hpend. unfold connect. rewrite Hkey. reflexivity.
Qed.

End WithKey.

Lemma close_after_disconnect_reconnects_witness :
  scheduled (step "key" (disconnect init) (Close 1006)) = [2000] /\
  ws (run "key" (disconnect init) [Close 1006; TimerFire 0]) = true.
Proof.
  destruct (close_after_disconnect_reconnects "key" init 1006
              ltac:(lia) ltac:(reflexivity)) as (Hs & _ & _ & Hw).
  split; [exact Hs|exact Hw].
Defined.


Lemma reconnect_attempts_bounded_witness :
  (reconnectAttempts (failedConnections "key" init [1006; 1006; 1006; 1006; 1006]%Z)
   <= 3)%nat.
Proof.
  apply (reconnect_attempts_bounded "key").
  apply reachable_failedConnections. apply reachable_init.
Defined.

End DeepgramTracesFacts.

Module SentimentTracesFacts.
Import Sentiment SentimentTraces SentimentFacts.

(** The control cells after [settle]: the lock is free, the head of the
    queue, if any, has moved to a 100 ms timer, and the debounce timer is
    as it was. *)
Lemma settle_control (text : string) (r : Run) (s : State) :
  inFlight (settle text r s) = None /\
  processingLock (settle text r s) = false /\
  isProcessing (settle text r s) = false /\
  debounceTimer (settle text r s) = debounceTimer s /\
  posted (settle text r s) = posted s ++ replicate (attempts r - 1) text /\
  requestQueue (settle text r s) = drop 1 (requestQueue s) /\
  spacingTimers (settle text r s)
    = spacingTimers s ++ map (mkTimeout 100) (take 1 (requestQueue s)).
Proof.
  unfold settle, finallyBlock.
  destruct s as [se kw ip er dt lp queue pl fl sp po].
  destruct (exit r) as [data| |err]; simpl.
  - destruct data as [|[|]|[| | [|] |incoming] [| | [|] | |items]]; simpl;
      destruct queue; simpl; rewrite ?app_nil_r; repeat split.
  - destruct queue; simpl; rewrite ?app_nil_r; repeat split.
  - destruct queue; simpl; rewrite ?app_nil_r; repeat split.
Qed.

(** What [processText] does to the debounce timer: it is left alone, or
    set to a text that passed the length guard. *)
Lemma processText_timer (text : string) (isFinal : bool) (s : State) :
  debounceTimer (processText text isFinal s) = debounceTimer s \/
  (debounceTimer (processText text isFinal s) = Some (mkTimeout DEBOUNCE_DELAY text) /\
   longEnough text).
Proof.
  unfold processText. destruct (negb isFinal); [left; reflexivity|].
  destruct (String.eqb text "" || (String.length (trim text) <? MIN_TEXT_LENGTH)%nat)
    eqn:Hg; [left; reflexivity|].
  destruct (String.eqb text (lastProcessedText s)); [left; reflexivity|].
  right. split; [reflexivity|].
  apply orb_false_iff in Hg as [_ Hlen]. apply Nat.ltb_ge in Hlen. exact Hlen.
Qed.

Lemma guarded_processText (text : string) (isFinal : bool) (s : State) :
  guarded s -> guarded (processText text isFinal s).
Proof.
  intros (Hp & Hq & Hsp & Hd & Hf). unfold guarded.
  destruct (processText_frame text isFinal s)
    as (_ & _ & _ & _ & -> & _ & -> & -> & ->).
  repeat (split; [assumption|]). split; [|assumption].
  intros t Ht. destruct (processText_timer text isFinal s) as [Heq|[Heq Hlen]].
  - apply Hd. congruence.
  - rewrite Heq in Ht. injection Ht as <-. exact Hlen.
Qed.

Lemma guarded_step (s : State) (e : Event) : guarded s -> guarded (step s e).
Proof.
  intros Hg. destruct e as [t f| |net| |]; simpl.
  - apply guarded_processText. exact Hg.
  - destruct (debounceTimer s) as [tm|] eqn:Htm; [|exact Hg].
    destruct Hg as (Hp & Hq & Hsp & Hd & Hf).
    pose proof (Hd tm Htm) as Hlen.
    unfold debounceCallback; simpl. destruct (processingLock s); simpl.
    + repeat split; try assumption; try discriminate.
      apply Forall_app; split; [assumption|]. apply Forall_singleton. exact Hlen.
    + repeat split; try assumption; try discriminate.
      * apply Forall_app; split; [assumption|]. apply Forall_singleton. exact Hlen.
      * intros text [= <-]. exact Hlen.
  - destruct (inFlight s) as [text|] eqn:Hfs; [|exact Hg].
    destruct (executeRequest net) as [r|]; [|exact Hg].
    destruct Hg as (Hp & Hq & Hsp & Hd & Hf).
    destruct (settle_control text r s) as (Hi & _ & _ & Ht & Hpo & Hqu & Hst).
    unfold guarded. rewrite Hi, Ht, Hpo, Hqu, Hst.
    repeat split; try assumption; try discriminate.
    + apply Forall_app; split; [assumption|].
      apply Forall_replicate. apply Hf. exact Hfs.
    + destruct (requestQueue s); [constructor|].
      simpl. rewrite drop_0. apply Forall_cons in Hq as [_ Hq]. exact Hq.
    + apply Forall_app; split; [assumption|].
      destruct (requestQueue s) as [|next rest]; simpl; [constructor|].
      apply Forall_singleton. apply Forall_cons in Hq as [Hq _]. exact Hq.
  - destruct (spacingTimers s) as [|tm rest] eqn:Hsp0; [exact Hg|].
    apply guarded_processText.
    destruct Hg as (Hp & Hq & Hsp & Hd & Hf). rewrite Hsp0 in Hsp.
    apply Forall_cons in Hsp as [_ Hsp]. repeat split; assumption.
  - destruct Hg as (Hp & Hq & Hsp & Hd & Hf).
    repeat split; try assumption. constructor.
Qed.

Lemma reachable_guarded (s : State) : reachable s -> guarded s.
Proof.
  induction 1 as [|s e Hs IH].
  - repeat split; try constructor; discriminate.
  - apply guarded_step. exact IH.
Qed.

(** X12. Every body the hook posts, and every text it queues, has at least
    three characters once trimmed: a text that fails the length guard of
    [processText] never reaches the network. *)
Theorem posted_texts_passed_guard (s : State) :
  reachable s ->
  Forall longEnough (posted s) /\ Forall longEnough (requestQueue s).
Proof.
  intros Hs. destruct (reachable_guarded s Hs) as (Hp & Hq & _). split; assumption.
Qed.

Lemma posted_texts_passed_guard_witness :
  Forall longEnough (posted twoQueued) /\ Forall longEnough (requestQueue twoQueued).
Proof.
  apply posted_texts_passed_guard. apply reachable_run. apply reachable_init.
Defined.

(** *** One request at a time *)

Lemma isProcessing_is_lock (s : State) :
  reachable s -> isProcessing s = processingLock s.
Proof.
  induction 1 as [|s e Hs IH]; [reflexivity|].
  destruct e as [t f| |net| |]; simpl.
  - unfold processText. destruct (negb f); [exact IH|].
    destruct (String.eqb t "" || (String.length (trim t) <? MIN_TEXT_LENGTH)%nat);
      [exact IH|].
    destruct (String.eqb t (lastProcessedText s)); exact IH.
  - destruct (debounceTimer s) as [tm|]; [|exact IH].
    unfold debounceCallback; simpl. destruct (processingLock s) eqn:Hl; simpl.
    + rewrite Hl. exact IH.
    + reflexivity.
  - destruct (inFlight s) as [text|]; [|exact IH].
    destruct (executeRequest net) as [r|]; [|exact IH].
    destruct (settle_control text r s) as (_ & -> & -> & _). reflexivity.
  - destruct (spacingTimers s) as [|tm rest]; [exact IH|].
    unfold processText. simpl.
    destruct (String.eqb (arg tm) ""
              || (String.length (trim (arg tm)) <? MIN_TEXT_LENGTH)%nat); [exact IH|].
    destruct (String.eqb (arg tm) (lastProcessedText s)); exact IH.
  - exact IH.
Qed.

(** X11. At most one request is in flight.  In every reachable state the
    lock, the [isProcessing] flag and the presence of a request in flight
    agree; a debounce expiry during a request posts nothing and leaves that
    request in flight; and however the network behaves, the end of the
    request releases the lock. *)
Theorem single_request_in_flight (s : State) :
  reachable s ->
  isProcessing s = processingLock s /\
  processingLock s = match inFlight s with Some _ => true | None => false end /\
  (forall text, inFlight s = Some text ->
                posted (step s DebounceFire) = posted s /\
                inFlight (step s DebounceFire) = Some text) /\
  (forall net, inFlight (step s (Settle net)) = None /\
               processingLock (step s (Settle net)) = false).
Proof.
  intros Hs. pose proof (lock_iff_inFlight s Hs) as Hlock.
  split; [apply isProcessing_is_lock; exact Hs|]. split; [exact Hlock|]. split.
  - intros text Hf. rewrite Hf in Hlock. simpl.
    destruct (debounceTimer s) as [tm|]; [|split; [reflexivity|exact Hf]].
    unfold debounceCallback; simpl. rewrite Hlock. simpl. split; [reflexivity|exact Hf].
  - intros net. simpl. destruct (inFlight s) as [text|] eqn:Hf.
    + destruct (executeRequest_total net) as [r ->].
      destruct (settle_control text r s) as (-> & -> & _). split; reflexivity.
    + rewrite Hf. split; [reflexivity|exact Hlock].
Qed.

Lemma single_request_in_flight_witness :
  posted (step twoQueued DebounceFire) = posted twoQueued /\
  inFlight (step twoQueued (Settle (fails networkError))) = None.
Proof.
  destruct (single_request_in_flight twoQueued
              ltac:(apply reachable_run; apply reachable_init))
    as (_ & _ & Hfire & Hsettle).
  split.
  - exact (proj1 (Hfire "first sentence" ltac:(vm_compute; reflexivity))).
  - exact (proj1 (Hsettle (fails networkError))).
Defined.

(** *** Aborted requests *)

Lemma executeRequest_aborted (net : nat -> Outcome) (k : nat) (err : HttpError) :
  transientBefore net k -> (k < MAX_RETRIES)%nat ->
  net k = Rejected err -> isAbort err = true ->
  exists sl, executeRequest net = Some (mkRun NoResponse (S k) sl).
Proof.
  unfold transientBefore, MAX_RETRIES. intros Hpre Hk Hnet Hab.
  assert (Hk' : k = 0%nat \/ k = 1%nat \/ k = 2%nat) by lia.
  unfold executeRequest; simpl.
  destruct Hk' as [->|[->| ->]].
  - rewrite Hnet, Hab. eauto.
  - destruct (Hpre 0%nat ltac:(lia)) as (e0 & -> & ->).
    rewrite Hnet, Hab. eauto.
  - destruct (Hpre 0%nat ltac:(lia)) as (e0 & -> & ->).
    destruct (Hpre 1%nat ltac:(lia)) as (e1 & -> & ->).
    rewrite Hnet, Hab. eauto.
Qed.

(** X13. A request that is aborted surfaces nothing.  When a call is rejected
    with an [AbortError] or with the code [ECONNABORTED] (the code of a
    request that timed out), no further call is made, no error message is
    set, sentiment, keywords and the dedup key stay as they were, and the
    lock is released. *)
Theorem aborted_request_is_silent (s : State) (text : string)
    (net : nat -> Outcome) (k : nat) (err : HttpError) :
  reachable s ->
  inFlight s = Some text ->
  transientBefore net k -> (k < MAX_RETRIES)%nat ->
  net k = Rejected err ->
  name err = "AbortError" \/ code err = Some "ECONNABORTED" ->
  error (step s (Settle net)) = None /\
  sentiment (step s (Settle net)) = sentiment s /\
  keywords (step s (Settle net)) = keywords s /\
  lastProcessedText (step s (Settle net)) = lastProcessedText s /\
  processingLock (step s (Settle net)) = false /\
  posted (step s (Settle net)) = posted s ++ replicate k text.
Proof.
  intros Hs Hf Hpre Hk Hnet Hcause.
  assert (Hab : isAbort err = true).
  { unfold isAbort. destruct Hcause as [-> | ->]; [reflexivity|apply orb_true_r]. }
  destruct (executeRequest_aborted net k err Hpre Hk Hnet Hab) as [sl Hr].
  rewrite (step_settle s text net _ Hf Hr).
  pose proof (settle_results text (mkRun NoResponse (S k) sl) s) as H. simpl in H.
  destruct H as (-> & -> & -> & ->).
  destruct (settle_control text (mkRun NoResponse (S k) sl) s)
    as (_ & -> & _ & _ & -> & _).
  simpl. rewrite Nat.sub_0_r.
  split; [apply (inFlight_error_cleared s Hs text Hf)|]. repeat split.
Qed.

Lemma aborted_request_is_silent_witness :
  error (step (secondInFlight "It is fine.")
           (Settle (fails (mkHttpError "AxiosError" (Some "ECONNABORTED")
                                       "timeout of 10000ms exceeded" None true)))) = None /\
  posted (step (secondInFlight "It is fine.")
            (Settle (fails (mkHttpError "AxiosError" (Some "ECONNABORTED")
                                        "timeout of 10000ms exceeded" None true))))
    = ["I love this!"; "It is fine."].
Proof.
  destruct (aborted_request_is_silent (secondInFlight "It is fine.") "It is fine."
              (fails (mkHttpError "AxiosError" (Some "ECONNABORTED")
                                  "timeout of 10000ms exceeded" None true))
              0%nat
              (mkHttpError "AxiosError" (Some "ECONNABORTED")
                           "timeout of 10000ms exceeded" None true)
              (secondInFlight_reachable "It is fine.")
              ltac:(vm_compute; reflexivity)
              ltac:(intros j Hj; lia)
              ltac:(unfold MAX_RETRIES; lia)
              eq_refl
              ltac:(right; reflexivity))
    as (He & _ & _ & _ & _ & Hp).
  split; [exact He|]. rewrite Hp. vm_compute. reflexivity.
Defined.

(** *** The queue, from completion to the next request *)

Lemma spacingFire_accepts (s : State) (tm : Timeout) (rest : list Timeout) :
  spacingTimers s = tm :: rest ->
  longEnough (arg tm) -> arg tm <> lastProcessedText s ->
  step s SpacingFire
  = set_debounceTimer (Some (mkTimeout DEBOUNCE_DELAY (arg tm))) (set_spacingTimers rest s).
Proof.
  intros Hsp Hlen Hne. simpl. rewrite Hsp.
  apply processText_accepts; assumption.
Qed.

Lemma debounceFire_free (s : State) (tm : Timeout) :
  processingLock s = false -> debounceTimer s = Some tm ->
  step s DebounceFire
  = set_posted (posted s ++ [arg tm])
      (set_inFlight (Some (arg tm))
         (set_error None
            (set_isProcessing true (set_processingLock true (set_debounceTimer None s))))).
Proof.
  intros Hl Ht. simpl. rewrite Ht. unfold debounceCallback. simpl. rewrite Hl. reflexivity.
Qed.

(** X14. The queue is served first in, first out.  When a request ends with
    texts queued and no newer call pending, the oldest queued text is
    taken from the queue, and after the 100 ms spacing and the 500 ms
    debounce it is the body of the next request, provided it differs from
    the dedup key left by the request that ended. *)
Theorem queued_text_is_next (s : State) (text : string) (net : nat -> Outcome)
    (next : string) (rest : list string) :
  reachable s ->
  inFlight s = Some text ->
  requestQueue s = next :: rest ->
  spacingTimers s = [] ->
  debounceTimer s = None ->
  next <> lastProcessedText (step s (Settle net)) ->
  spacingTimers (step s (Settle net)) = [mkTimeout 100 next] /\
  debounceTimer (run s [Settle net; SpacingFire]) = Some (mkTimeout 500 next) /\
  inFlight (run s [Settle net; SpacingFire; DebounceFire]) = Some next /\
  posted (run s [Settle net; SpacingFire; DebounceFire])
    = posted (step s (Settle net)) ++ [next] /\
  requestQueue (run s [Settle net; SpacingFire; DebounceFire]) = rest.
Proof.
  intros Hs Hf Hq Hsp Hd Hne.
  destruct (reachable_guarded s Hs) as (_ & Hgq & _).
  rewrite Hq in Hgq. apply Forall_cons in Hgq as [Hlen _].
  destruct (executeRequest_total net) as [r Hr].
  unfold run. cbn [fold_left].
  rewrite (step_settle s text net r Hf Hr) in *.
  destruct (settle_control text r s) as (_ & Hl1 & _ & Hd1 & _ & Hq1 & Hsp1).
  rewrite Hq in Hq1, Hsp1. rewrite Hsp in Hsp1. rewrite Hd in Hd1. simpl in Hq1, Hsp1.
  rewrite drop_0 in Hq1.
  split; [exact Hsp1|].
  rewrite (spacingFire_accepts (settle text r s) (mkTimeout 100 next) [] Hsp1 Hlen Hne).
  split; [reflexivity|].
  rewrite (debounceFire_free _ (mkTimeout DEBOUNCE_DELAY next)) by (simpl; auto).
  simpl. rewrite Hq1. repeat split.
Qed.

Lemma queued_text_is_next_witness :
  inFlight (run twoQueued [Settle (answers exampleBody); SpacingFire; DebounceFire])
    = Some "second sentence" /\
  requestQueue (run twoQueued [Settle (answers exampleBody); SpacingFire; DebounceFire])
    = ["third sentence"].
Proof.
  destruct (queued_text_is_next twoQueued "first sentence" (answers exampleBody)
              "second sentence" ["third sentence"]
              ltac:(apply reachable_run; apply reachable_init)
              ltac:(vm_compute; reflexivity) ltac:(vm_compute; reflexivity)
              ltac:(vm_compute; reflexivity) ltac:(vm_compute; reflexivity)
              ltac:(vm_compute; discriminate))
    as (_ & _ & Hf & _ & Hq).
  split; [exact Hf|exact Hq].
Defined.

(** X15. A text taken from the queue can be lost.  It goes through
    [processText] again: if it equals the dedup key left by the request
    that ended it is dropped at once; and if another accepted call arrives
    before its debounce expires, that call replaces it, so that the next
    request carries the newer text and the dequeued one is neither posted
    nor queued any more. *)
Theorem dequeued_text_can_be_lost (s : State) (text : string) (net : nat -> Outcome)
    (next : string) (rest : list string) :
  inFlight s = Some text ->
  requestQueue s = next :: rest ->
  spacingTimers s = [] ->
  debounceTimer s = None ->
  (next = lastProcessedText (step s (Settle net)) ->
   debounceTimer (run s [Settle net; SpacingFire]) = None /\
   spacingTimers (run s [Settle net; SpacingFire]) = [] /\
   requestQueue (run s [Settle net; SpacingFire]) = rest /\
   posted (run s [Settle net; SpacingFire]) = posted (step s (Settle net))) /\
  (forall newer : string,
      longEnough newer -> newer <> lastProcessedText (step s (Settle net)) ->
      inFlight (run s [Settle net; SpacingFire; Submit newer true; DebounceFire])
        = Some newer /\
      posted (run s [Settle net; SpacingFire; Submit newer true; DebounceFire])
        = posted (step s (Settle net)) ++ [newer] /\
      requestQueue (run s [Settle net; SpacingFire; Submit newer true; DebounceFire])
        = rest /\
      spacingTimers (run s [Settle net; SpacingFire; Submit newer true; DebounceFire])
        = [] /\
      debounceTimer (run s [Settle net; SpacingFire; Submit newer true; DebounceFire])
        = None).
Proof.
  intros Hf Hq Hsp Hd.
  destruct (executeRequest_total net) as [r Hr].
  unfold run. cbn [fold_left].
  rewrite (step_settle s text net r Hf Hr) in *.
  destruct (settle_control text r s) as (_ & Hl1 & _ & Hd1 & _ & Hq1 & Hsp1).
  rewrite Hq in Hq1, Hsp1. rewrite Hsp in Hsp1. rewrite Hd in Hd1. simpl in Hq1, Hsp1.
  rewrite drop_0 in Hq1.
  assert (Hfire : step (settle text r s) SpacingFire
                  = processText next true (set_spacingTimers [] (settle text r s))).
  { simpl. rewrite Hsp1. reflexivity. }
  rewrite Hfire. clear Hfire.
  pose proof (processText_frame next true (set_spacingTimers [] (settle text r s)))
    as (_ & _ & _ & Hk & Hqq & Hll & _ & Hss & Hpp).
  simpl in Hk, Hqq, Hll, Hss, Hpp.
  split.
  - intros Heq.
    rewrite (processText_ignores (set_spacingTimers [] (settle text r s)) next true)
      by (right; right; exact Heq).
    simpl. repeat split; assumption.
  - intros newer Hlen Hne.
    change (step ?x (Submit newer true)) with (processText newer true x).
    rewrite (processText_accepts _ newer Hlen) by (rewrite Hk; exact Hne).
    rewrite (debounceFire_free _ (mkTimeout DEBOUNCE_DELAY newer))
      by (simpl; first [reflexivity | rewrite Hll; exact Hl1]).
    simpl. rewrite Hpp, Hqq, Hss, Hq1. repeat split.
Qed.

Lemma dequeued_text_can_be_lost_witness :
  posted (run twoQueued [Settle (answers exampleBody); SpacingFire;
                         Submit "a newer sentence" true; DebounceFire])
    = ["first sentence"; "a newer sentence"] /\
  requestQueue (run twoQueued [Settle (answers exampleBody); SpacingFire;
                               Submit "a newer sentence" true; DebounceFire])
    = ["third sentence"].
Proof.
  destruct (dequeued_text_can_be_lost twoQueued "first sentence" (answers exampleBody)
              "second sentence" ["third sentence"]
              ltac:(vm_compute; reflexivity) ltac:(vm_compute; reflexivity)
              ltac:(vm_compute; reflexivity) ltac:(vm_compute; reflexivity))
    as [_ Hnewer].
  destruct (Hnewer "a newer sentence" ltac:(vm_compute; lia)
              ltac:(vm_compute; discriminate)) as (_ & Hp & Hq & _).
  split; [rewrite Hp; vm_compute; reflexivity|exact Hq].
Defined.

(** *** The score *)

Lemma executeRequest_responded (net : nat -> Outcome) (r : Run) (data : ResponseData) :
  executeRequest net = Some r -> exit r = Responded data ->
  exists k, net k = Resolved data.
Proof.
  unfold executeRequest; simpl.
  destruct (net 0%nat) as [d0|e0] eqn:N0.
  { intros [= <-] [= <-]. eauto. }
  destruct (isAbort e0); [intros [= <-]; discriminate|].
  destruct (net 1%nat) as [d1|e1] eqn:N1.
  { intros [= <-] [= <-]. eauto. }
  destruct (isAbort e1); [intros [= <-]; discriminate|].
  destruct (net 2%nat) as [d2|e2] eqn:N2.
  { intros [= <-] [= <-]. eauto. }
  destruct (isAbort e2); intros [= <-]; discriminate.
Qed.

Lemma smooth_in_range (prev : option SentimentObject) (incoming : SentimentObject) :
  match prev with Some o => (0 <= score o <= 1)%Q | None => True end ->
  (0 <= score incoming <= 1)%Q ->
  (0 <= score (smooth prev incoming) <= 1)%Q.
Proof.
  destruct prev as [o|]; simpl; [|tauto].
  intros [H0 H1] [I0 I1]. split; lra.
Qed.

Lemma scoreInRange_step (s : State) (e : Event) :
  scoreInRange s -> scoresInRange e -> scoreInRange (step s e).
Proof.
  unfold scoreInRange. intros Hs He. destruct e as [t f| |net| |]; simpl.
  - destruct (processText_frame t f s) as (-> & _). exact Hs.
  - destruct (debounceTimer s) as [tm|]; [|exact Hs].
    unfold debounceCallback; simpl. destruct (processingLock s); exact Hs.
  - destruct (inFlight s) as [text|]; [|exact Hs].
    destruct (executeRequest net) as [r|] eqn:Hr; [|exact Hs].
    pose proof (settle_results text r s) as H.
    destruct (exit r) as [data| |err] eqn:Hx;
      [|destruct H as (-> & _); exact Hs|destruct H as (-> & _); exact Hs].
    destruct H as (-> & _).
    destruct data as [| |[| | |incoming] kw]; try exact Hs.
    destruct (executeRequest_responded net r _ Hr Hx) as [k Hk].
    apply smooth_in_range; [exact Hs|]. exact (He k incoming kw Hk).
  - destruct (spacingTimers s) as [|tm rest]; [exact Hs|].
    destruct (processText_frame (arg tm) true (set_spacingTimers rest s)) as (-> & _).
    exact Hs.
  - exact I.
Qed.

(** X16. If every sentiment object the network delivers has its score in
    [0, 1], the score held by the hook is in [0, 1] after any sequence of
    events: smoothing never leaves the range. *)
Theorem score_stays_in_range (es : list Event) :
  forall s : State,
    scoreInRange s -> Forall scoresInRange es -> scoreInRange (run s es).
Proof.
  induction es as [|e es IH]; intros s Hs Hes; [exact Hs|].
  apply Forall_cons in Hes as [He Hes].
  apply (IH (step s e)); [|exact Hes].
  apply scoreInRange_step; assumption.
Qed.

Lemma score_stays_in_range_witness :
  scoreInRange (run init [Submit "I love this!" true; DebounceFire;
                          Settle (answers exampleBody);
                          Submit "It is fine." true; DebounceFire;
                          Settle (answers exampleBody)]).
Proof.
  apply score_stays_in_range; [exact I|].
  repeat (apply Forall_cons; split; [|]); try exact I; try apply Forall_nil_2;
    intros k o kw [= <- <-]; simpl; split; discriminate.
Defined.

(** One answered request, started while no request is in flight, with an
    accepted text. *)
Lemma answered_spec (data : ResponseData) (s : State) (text : string) :
  processingLock s = false -> longEnough text -> text <> lastProcessedText s ->
  sentiment (answered data s text)
    = match data with
      | DataObject (SentimentObj incoming) _ => Some (smooth (sentiment s) incoming)
      | _ => sentiment s
      end /\
  lastProcessedText (answered data s text)
    = (if dataTruthy data then text else lastProcessedText s) /\
  processingLock (answered data s text) = false /\
  posted (answered data s text) = posted s ++ [text].
Proof.
  intros Hl Hlen Hne. unfold answered, run. cbn [fold_left].
  change (step s (Submit text true)) with (processText text true s).
  rewrite (processText_accepts s text Hlen Hne).
  rewrite (debounceFire_free _ (mkTimeout DEBOUNCE_DELAY text)) by (simpl; auto).
  rewrite (step_settle _ text (answers data) (mkRun (Responded data) 1 []))
    by reflexivity.
  match goal with
  | |- context [settle text ?r ?t] =>
      pose proof (settle_results text r t) as H;
      destruct (settle_control text r t) as (_ & Hl' & _ & _ & Hp' & _)
  end.
  cbn [exit] in H. destruct H as (Hs' & _ & _ & Hk').
  rewrite Hs', Hk', Hl', Hp'. simpl. rewrite app_nil_r. repeat split.
Qed.

Lemma Qpower_03_succ (n : nat) :
  ((3 # 10) ^ Z.of_nat (S n) == (3 # 10) * (3 # 10) ^ Z.of_nat n)%Q.
Proof.
  rewrite Nat2Z.inj_succ, <- Z.add_1_l.
  rewrite Qpower_plus by discriminate. reflexivity.
Qed.

(** X17. Successive answers with the same sentiment converge geometrically.
    After [n] answered requests that all carry the same sentiment object,
    the distance between the score held and the incoming score is 0.3^n
    times the distance before the first of them. *)
Theorem smoothing_converges (texts : list string) :
  forall (s : State) (prev incoming : SentimentObject) (kw : KeywordsField),
    processingLock s = false ->
    sentiment s = Some prev ->
    Forall longEnough texts ->
    changing (lastProcessedText s) texts ->
    exists o,
      sentiment (fold_left (answered (DataObject (SentimentObj incoming) kw)) texts s)
        = Some o /\
      (score o - score incoming
       == (3 # 10) ^ Z.of_nat (length texts) * (score prev - score incoming))%Q.
Proof.
  induction texts as [|t texts IH]; intros s prev incoming kw Hl Hs Hlen Hch.
  - exists prev. split; [exact Hs|]. simpl. ring.
  - apply Forall_cons in Hlen as [Ht Hlen]. destruct Hch as [Hne Hch].
    destruct (answered_spec (DataObject (SentimentObj incoming) kw) s t Hl Ht Hne)
      as (Hs1 & Hk1 & Hl1 & _).
    rewrite Hs in Hs1. simpl in Hs1, Hk1.
    cbn [fold_left].
    destruct (IH (answered (DataObject (SentimentObj incoming) kw) s t)
                 (smooth (Some prev) incoming) incoming kw Hl1 Hs1 Hlen)
      as (o & Ho & Hscore).
    { rewrite Hk1. exact Hch. }
    exists o. split; [exact Ho|].
    rewrite Hscore. cbn [length]. rewrite Qpower_03_succ. simpl score. ring.
Qed.

Lemma smoothing_converges_witness :
  exists o,
    sentiment (fold_left (answered (DataObject (SentimentObj (mkSentiment 0 "negative" "weak"))
                                               KeywordsUndefined))
                 ["It is fine."; "It is bad."]
                 (answered exampleBody init "I love this!")) = Some o /\
    (score o == 0.081)%Q.
Proof.
  destruct (smoothing_converges ["It is fine."; "It is bad."]
              (answered exampleBody init "I love this!")
              (mkSentiment 0.9 "positive" "strong")
              (mkSentiment 0 "negative" "weak") KeywordsUndefined
              ltac:(vm_compute; reflexivity) ltac:(vm_compute; reflexivity))
    as (o & Ho & Hscore).
  - repeat (apply Forall_cons; split; [vm_compute; lia|]). apply Forall_nil_2.
  - vm_compute. repeat split; discriminate.
  - exists o. split; [exact Ho|].
    simpl in Hscore. lra.
Defined.

(** X18. [clearData] does not cancel the request in flight.  It leaves the
    debounce timer, the lock and the request as they are, so a response
    that arrives afterwards fills the cleared state again: the incoming
    sentiment object is taken as it is, without smoothing, and the text
    becomes the dedup key. *)
Theorem clearData_keeps_request (s : State) (text : string) (net : nat -> Outcome)
    (r : Run) (incoming : SentimentObject) (kw : KeywordsField) :
  inFlight s = Some text ->
  executeRequest net = Some r ->
  exit r = Responded (DataObject (SentimentObj incoming) kw) ->
  debounceTimer (step s ClearData) = debounceTimer s /\
  inFlight (step s ClearData) = Some text /\
  processingLock (step s ClearData) = processingLock s /\
  sentiment (run s [ClearData; Settle net]) = Some incoming /\
  keywords (run s [ClearData; Settle net])
    = match kw with KeywordsArray items => items | _ => [] end /\
  lastProcessedText (run s [ClearData; Settle net]) = text.
Proof.
  intros Hf Hr Hx. unfold run. cbn [fold_left].
  split; [reflexivity|]. split; [exact Hf|]. split; [reflexivity|].
  rewrite (step_settle (step s ClearData) text net r) by assumption.
  pose proof (settle_results text r (step s ClearData)) as H. rewrite Hx in H.
  destruct H as (-> & -> & _ & ->). simpl. repeat split.
Qed.

Lemma clearData_keeps_request_witness :
  sentiment (run (secondInFlight "It is fine.")
               [ClearData;
                Settle (answers (DataObject (SentimentObj (mkSentiment 0.5 "neutral" "weak"))
                                            KeywordsUndefined))])
    = Some (mkSentiment 0.5 "neutral" "weak").
Proof.
  destruct (clearData_keeps_request (secondInFlight "It is fine.") "It is fine."
              (answers (DataObject (SentimentObj (mkSentiment 0.5 "neutral" "weak"))
                                   KeywordsUndefined))
              (mkRun (Responded (DataObject (SentimentObj (mkSentiment 0.5 "neutral" "weak"))
                                            KeywordsUndefined)) 1 [])
              (mkSentiment 0.5 "neutral" "weak") KeywordsUndefined
              ltac:(vm_compute; reflexivity) ltac:(vm_compute; reflexivity)
              ltac:(vm_compute; reflexivity))
    as (_ & _ & _ & Hs & _).
  exact Hs.
Defined.

End SentimentTracesFacts.

Module AudioCodecFacts.
Import JsNumber Audio AudioDecode AudioFacts.

(** Truncation toward zero is monotone. *)
Lemma truncate_mono (a b : Q) : (a <= b)%Q -> truncate a <= truncate b.
Proof.
  destruct a as [n1 d1], b as [n2 d2]. unfold Qle, truncate; simpl. intros H.
  assert (Hd1 : 0 < Z.pos d1) by lia. assert (Hd2 : 0 < Z.pos d2) by lia.
  destruct (Z_lt_le_dec n1 0) as [Hn1|Hn1]; destruct (Z_lt_le_dec n2 0) as [Hn2|Hn2].
  - apply Z.quot_le_upper_bound; [lia|].
    pose proof (Z.quot_rem' n2 (Z.pos d2)) as Hqr.
    pose proof (Z.rem_nonpos n2 (Z.pos d2) ltac:(lia) ltac:(lia)) as Hr.
    nia.
  - apply Z.le_trans with 0.
    + apply Z.quot_le_upper_bound; lia.
    + apply Z.quot_le_lower_bound; lia.
  - exfalso. nia.
  - apply Z.quot_le_lower_bound; [lia|].
    pose proof (Z.quot_rem' n1 (Z.pos d1)) as Hqr.
    pose proof (Z.rem_nonneg n1 (Z.pos d1) ltac:(lia) ltac:(lia)) as Hr.
    nia.
Qed.

(** The scaled clamped value of a finite sample. *)
Lemma scaled_finite (p : Q) :
  exists r, scaleSpec (clampSpec (Fin p)) = Fin r /\
            ((p <= -1 -> r == -32768) /\
             (-1 <= p < 0 -> r == p * 32768) /\
             (0 <= p <= 1 -> r == p * 32767) /\
             (1 <= p -> r == 32767))%Q.
Proof.
  unfold clampSpec, scaleSpec.
  destruct (Qlt_le_dec p 1) as [H1|H1].
  - destruct (Qlt_le_dec (-1) p) as [H2|H2].
    + destruct (Qlt_le_dec p 0) as [H3|H3]; eexists; (split; [reflexivity|]);
        repeat split; intros; lra.
    + destruct (Qlt_le_dec (-1) 0) as [_|H3]; [|exfalso; lra].
      eexists; (split; [reflexivity|]); repeat split; intros; lra.
  - destruct (Qlt_le_dec 1 0) as [H3|_]; [exfalso; lra|].
    eexists; (split; [reflexivity|]); repeat split; intros; lra.
Qed.

Lemma encodeSample_finite (p : Q) :
  exists r, scaleSpec (clampSpec (Fin p)) = Fin r /\ encodeSample (Fin p) = truncate r.
Proof.
  destruct (scaled_finite p) as (r & Hr & _). exists r. split; [exact Hr|].
  rewrite encodeSample_encodeSpec.
  pose proof (encodeSpec_no_wrap (Fin p)) as H. rewrite Hr in H. tauto.
Qed.

Lemma encodeSample_mono (p q : Q) :
  (p <= q)%Q -> encodeSample (Fin p) <= encodeSample (Fin q).
Proof.
  intros Hpq.
  destruct (scaled_finite p) as (r1 & Hr1 & Hp1 & Hp2 & Hp3 & Hp4).
  destruct (scaled_finite q) as (r2 & Hr2 & Hq1 & Hq2 & Hq3 & Hq4).
  destruct (encodeSample_finite p) as (r1' & Hr1' & ->).
  destruct (encodeSample_finite q) as (r2' & Hr2' & ->).
  rewrite Hr1 in Hr1'. rewrite Hr2 in Hr2'.
  injection Hr1' as <-. injection Hr2' as <-.
  apply truncate_mono.
  destruct (Qlt_le_dec p (-1)), (Qlt_le_dec q (-1)), (Qlt_le_dec p 0),
    (Qlt_le_dec q 0), (Qlt_le_dec p 1), (Qlt_le_dec q 1); lra.
Qed.

Lemma encodeSample_Qeq (p q : Q) :
  (p == q)%Q -> encodeSample (Fin p) = encodeSample (Fin q).
Proof.
  intros Hpq. apply Z.le_antisymm; apply encodeSample_mono; rewrite Hpq; apply Qle_refl.
Qed.

(** X4. The encoder preserves order: a larger sample never encodes to a
    smaller 16-bit value, the two infinities encode to the two ends of
    the range, and two representations of the same number encode
    alike. *)
Theorem encodeSample_monotone :
  (forall p q : Q, (p <= q)%Q -> encodeSample (Fin p) <= encodeSample (Fin q)) /\
  (forall p : Q,
      encodeSample NegInf = -32768 /\ encodeSample PosInf = 32767 /\
      -32768 <= encodeSample (Fin p) <= 32767) /\
  (forall p q : Q, (p == q)%Q -> encodeSample (Fin p) = encodeSample (Fin q)).
Proof.
  split; [exact encodeSample_mono|]. split.
  - intros p. split; [reflexivity|]. split; [reflexivity|].
    destruct (encodeSample_finite p) as (r & Hr & ->).
    pose proof (encodeSpec_no_wrap (Fin p)) as H. rewrite Hr in H. tauto.
  - exact encodeSample_Qeq.
Qed.

Lemma encodeSample_monotone_witness :
  encodeSample (Fin (-1 # 2)) <= encodeSample (Fin (1 # 3)).
Proof.
  apply (proj1 encodeSample_monotone). unfold Qle; simpl; lia.
Defined.

(** *** Decoding and encoding again *)

Section RoundTrip.
Variable stored : Q -> Q.

Lemma decodeLoop_map (fuel : nat) :
  forall (i : nat) (buffer : list Z) (out : list Number),
    length out = length buffer ->
    (i + fuel = length buffer)%nat ->
    (forall j x, (j < i)%nat -> buffer !! j = Some x ->
                 out !! j = Some (decodeSample stored x)) ->
    decodeLoop stored fuel i buffer out = map (decodeSample stored) buffer.
Proof.
  induction fuel as [|fuel IH]; intros i buffer out Hlen Hi Hdone; simpl.
  - apply list_eq. intros j. rewrite list_lookup_fmap.
    destruct (buffer !! j) as [x|] eqn:Hj; simpl.
    + apply Hdone; [|assumption]. apply lookup_lt_Some in Hj. lia.
    + apply lookup_ge_None. apply lookup_ge_None in Hj. lia.
  - destruct (Nat.ltb_spec i (length buffer)) as [Hlt|Hge]; [|lia].
    apply IH.
    + rewrite length_insert. assumption.
    + lia.
    + intros j x Hj Hx. destruct (decide (j = i)) as [->|Hne].
      * rewrite list_lookup_insert_eq by lia.
        rewrite nth_lookup, Hx. reflexivity.
      * rewrite list_lookup_insert_ne by congruence.
        apply Hdone; [lia|assumption].
Qed.

Lemma convertInt16ToFloat32_map (buffer : list Z) :
  convertInt16ToFloat32 stored buffer = map (decodeSample stored) buffer.
Proof.
  unfold convertInt16ToFloat32. apply decodeLoop_map.
  - apply length_replicate.
  - lia.
  - intros j x Hj. lia.
Qed.

(** A multiple of 2^-15 that is not positive encodes to its numerator. *)
Lemma encodeSample_fifteen_bits (k : Z) :
  -32768 <= k <= 0 -> encodeSample (Fin (k # 32768)) = k.
Proof.
  intros Hk.
  destruct (scaled_finite (k # 32768)) as (r & Hr & _ & Hneg & Hpos & _).
  destruct (encodeSample_finite (k # 32768)) as (r' & Hr' & ->).
  rewrite Hr in Hr'. injection Hr' as <-.
  assert (Hrk : (r == inject_Z k)%Q).
  { destruct (Z_lt_le_dec k 0) as [Hlt|Hge].
    - rewrite Hneg by (unfold Qle, Qlt; simpl; lia).
      unfold Qeq; simpl. lia.
    - rewrite Hpos by (unfold Qle; simpl; lia).
      assert (k = 0) by lia. subst k. reflexivity. }
  apply Z.le_antisymm.
  - apply Z.le_trans with (truncate (inject_Z k)).
    + apply truncate_mono. rewrite Hrk. apply Qle_refl.
    + unfold truncate; simpl. rewrite Z.quot_1_r. lia.
  - apply Z.le_trans with (truncate (inject_Z k)).
    + unfold truncate; simpl. rewrite Z.quot_1_r. lia.
    + apply truncate_mono. rewrite Hrk. apply Qle_refl.
Qed.

Lemma round_trip_sample (x : Z) :
  exactOnFifteenBits stored ->
  -32768 <= x <= 0 \/ x = 32767 ->
  encodeSample (decodeSample stored x) = x.
Proof.
  intros Hexact Hx. unfold decodeSample.
  destruct (Z.ltb_spec x 0) as [Hneg|Hpos].
  - rewrite (encodeSample_Qeq _ (x # 32768)).
    + apply encodeSample_fifteen_bits. lia.
    + apply (Hexact _ x); [reflexivity|lia].
  - destruct Hx as [Hx| ->].
    + assert (x = 0) by lia. subst x.
      rewrite (encodeSample_Qeq _ (0 # 32768)).
      * apply encodeSample_fifteen_bits. lia.
      * rewrite (Hexact _ 0); [reflexivity|reflexivity|lia].
    + rewrite (encodeSample_Qeq _ 1).
      * reflexivity.
      * rewrite (Hexact _ 32768); [reflexivity|reflexivity|lia].
Qed.

(** X5. Decoding 16-bit samples to floats and encoding them again gives the
    samples back, for samples that are zero or negative and for 32767:
    their quotients by 32768 (and 32767 / 32767) are held exactly in
    single precision, and the encoder multiplies by the same constant. *)
Theorem pcm16_round_trip (buffer : list Z) :
  exactOnFifteenBits stored ->
  Forall (fun x => -32768 <= x <= 0 \/ x = 32767) buffer ->
  convertFloat32ToInt16 (convertInt16ToFloat32 stored buffer) = buffer.
Proof.
  intros Hexact Hall.
  rewrite convertInt16ToFloat32_map, convertFloat32ToInt16_map, map_map.
  induction Hall as [|x buffer Hx Hall IH]; [reflexivity|].
  simpl. rewrite (round_trip_sample x Hexact Hx), IH. reflexivity.
Qed.

End RoundTrip.

Lemma pcm16_round_trip_witness :
  convertFloat32ToInt16 (convertInt16ToFloat32 (fun q => q) [-32768; -12345; -1; 0; 32767])
  = [-32768; -12345; -1; 0; 32767].
Proof.
  apply pcm16_round_trip.
  - intros q k _ _. reflexivity.
  - repeat (apply Forall_cons; split; [lia|]). apply Forall_nil_2.
Defined.

End AudioCodecFacts.

Module AudioFormatFacts.
Import AudioFormat.

Lemma formatDuration_checked :
  forallb (fun n => String.eqb (formatDuration (Z.of_nat n))
                               (mmss (Z.of_nat n / 60) (Z.of_nat n mod 60)))
          (seq 0 (Z.to_nat 6000)) = true.
Proof. vm_compute. reflexivity. Qed.

(** X6. Below one hundred minutes a whole number of seconds is formatted as
    exactly five characters, MM:SS: the minutes with two digits, a colon,
    and the seconds (always below 60) with two digits, both padded with a
    zero. *)
Theorem formatDuration_mm_ss (seconds : Z) :
  0 <= seconds < 6000 ->
  formatDuration seconds = mmss (seconds / 60) (seconds mod 60) /\
  String.length (formatDuration seconds) = 5%nat /\
  0 <= seconds mod 60 < 60 /\ 0 <= seconds / 60 < 100.
Proof.
  intros Hs.
  assert (Heq : formatDuration seconds = mmss (seconds / 60) (seconds mod 60)).
  { pose proof formatDuration_checked as Hall.
    rewrite forallb_forall in Hall.
    specialize (Hall (Z.to_nat seconds)).
    rewrite Z2Nat.id in Hall by lia.
    apply String.eqb_eq. apply Hall.
    apply in_seq. lia. }
  split; [exact Heq|]. rewrite Heq. split; [reflexivity|].
  split; [apply Z.mod_pos_bound; lia|].
  split; [apply Z.div_pos; lia|apply Z.div_lt_upper_bound; lia].
Qed.

Lemma formatDuration_mm_ss_witness :
  formatDuration 754 = "12:34".
Proof.
  rewrite (proj1 (formatDuration_mm_ss 754 ltac:(lia))). vm_compute. reflexivity.
Defined.

End AudioFormatFacts.

Module AppFacts.
Import App.

Lemma imap_texts (keywords : list string) :
  forall f : nat -> string -> KeywordEntry,
    (forall index keyword, text (f index keyword) = keyword) ->
    map text (imap f keywords) = keywords.
Proof.
  induction keywords as [|k keywords IH]; intros f Hf; [reflexivity|].
  rewrite imap_cons. simpl. rewrite Hf. f_equal.
  apply IH. intros index keyword. apply Hf.
Qed.

(** X19. The keyword log of the application keeps the last twenty keywords.
    A non-empty keyword array is appended to the log in its order and the
    log is cut to its last 20 entries; an empty array leaves the log as it
    is.  A log of at most 20 entries therefore stays at most 20 long. *)
Theorem keyword_log_keeps_last_twenty (now : Z) (keywords : list string)
    (currentKeywords : list KeywordEntry) :
  map text (keywordsEffect now keywords currentKeywords)
    = match keywords with
      | [] => map text currentKeywords
      | _ :: _ =>
          drop (length currentKeywords + length keywords - 20)
               (map text currentKeywords ++ keywords)
      end /\
  ((length currentKeywords <= 20)%nat ->
   (length (keywordsEffect now keywords currentKeywords) <= 20)%nat).
Proof.
  unfold keywordsEffect. destruct keywords as [|k keywords].
  - simpl. split; [reflexivity|trivial].
  - change (0 <? length (k :: keywords))%nat with true. cbv iota zeta. split.
    + rewrite <- skipn_map, map_app, length_app, length_imap.
      rewrite imap_texts by reflexivity. reflexivity.
    + intros _. rewrite length_drop. lia.
Qed.

Lemma keyword_log_keeps_last_twenty_witness :
  map text (keywordsEffect 1000 ["love"; "amazing"]
              [mkKeywordEntry "calm" 1 0; mkKeywordEntry "fine" 2 150])
    = ["calm"; "fine"; "love"; "amazing"] /\
  (length (keywordsEffect 1000 ["love"; "amazing"]
             [mkKeywordEntry "calm" 1 0; mkKeywordEntry "fine" 2 150]) <= 20)%nat.
Proof.
  destruct (keyword_log_keeps_last_twenty 1000 ["love"; "amazing"]
              [mkKeywordEntry "calm" 1 0; mkKeywordEntry "fine" 2 150]) as [Ht Hl].
  split; [exact Ht|]. apply Hl. simpl. lia.
Defined.

End AppFacts.

Module AudioCaptureFacts.
Import AudioCapture.

Lemma catchBlock_spec (name : string) (s : State) :
  snd (catchBlock name s) = Thrown (errorMessageFor name) /\
  error (fst (catchBlock name s)) = Some (errorMessageFor name) /\
  isCapturing (fst (catchBlock name s)) = false /\
  stream (fst (catchBlock name s)) = stream s /\
  mediaStream (fst (catchBlock name s)) = mediaStream s /\
  audioContext (fst (catchBlock name s)) = audioContext s /\
  created (fst (catchBlock name s)) = created s /\
  permissionState (fst (catchBlock name s))
    = (if isOneOf name "NotAllowedError" "PermissionDeniedError"
       then "denied" else permissionState s).
Proof.
  unfold catchBlock.
  destruct (isOneOf name "NotAllowedError" "PermissionDeniedError"); repeat split.
Qed.

Lemma catchBlock_refs (name : string) (s : State) :
  audioTracks (fst (catchBlock name s)) = audioTracks s /\
  closed (fst (catchBlock name s)) = closed s /\
  closeTimers (fst (catchBlock name s)) = closeTimers s.
Proof.
  unfold catchBlock.
  destruct (isOneOf name "NotAllowedError" "PermissionDeniedError"); repeat split.
Qed.

(** The message for a name: one per class of names and the generic one
    for every other name. *)
Lemma errorMessageFor_classes (name : string) :
  (name = "NotAllowedError" \/ name = "PermissionDeniedError" ->
   errorMessageFor name
     = "Microphone access denied. Please grant permission and try again.") /\
  (name = "NotFoundError" \/ name = "DevicesNotFoundError" ->
   errorMessageFor name
     = "No microphone found. Please connect a microphone and try again.") /\
  (name = "NotReadableError" \/ name = "TrackStartError" ->
   errorMessageFor name = "Microphone is already in use by another application.") /\
  (name = "OverconstrainedError" \/ name = "ConstraintNotSatisfiedError" ->
   errorMessageFor name = "Your microphone does not support the required settings.") /\
  (name = "TypeError" ->
   errorMessageFor name = "Invalid configuration. Please refresh and try again.") /\
  (~ In name ["NotAllowedError"; "PermissionDeniedError"; "NotFoundError";
              "DevicesNotFoundError"; "NotReadableError"; "TrackStartError";
              "OverconstrainedError"; "ConstraintNotSatisfiedError"; "TypeError"] ->
   errorMessageFor name = "Failed to access microphone").
Proof.
  repeat split; try (intros [-> | ->]; reflexivity); try (intros ->; reflexivity).
  intros Hother.
  assert (Hne : forall l,
             In l ["NotAllowedError"; "PermissionDeniedError"; "NotFoundError";
                   "DevicesNotFoundError"; "NotReadableError"; "TrackStartError";
                   "OverconstrainedError"; "ConstraintNotSatisfiedError"; "TypeError"] ->
             String.eqb name l = false).
  { intros l Hl. apply String.eqb_neq. intros ->. contradiction. }
  unfold errorMessageFor, isOneOf.
  rewrite !Hne by (simpl; tauto). reflexivity.
Qed.

(** X20. A failed [startCapture] always throws the message it stores.
    Whether the browser lacks [getUserMedia], the request for the
    microphone is refused, or a call made once the stream is granted
    throws ([getSettings] of the first track, the constructor of the audio
    context), the call throws an error whose message is the one put in the
    error state, chosen from the name of the underlying error: one message
    per class of names, pairwise different, and the generic one for every
    other name, which includes the error thrown for an unsupported
    browser.  The hook is left not capturing, with the stream state, the
    audio context and the number of contexts created as they were; the
    permission state becomes "denied" only for a refusal of permission.
    After a failure that follows the grant the stream and its tracks stay
    stored in the refs; otherwise the refs are as they were. *)
Theorem startCapture_failure (s : State) (supported : bool) (media : UserMedia)
    (name : string) :
  (supported = false /\ name = "Error") \/
  (supported = true /\ isCapturing s && mediaStream s = false /\
   (media = Refused name \/
    (exists tracks, (0 < tracks)%nat /\ media = Granted tracks (SettingsThrow name)) \/
    (exists tracks, audioContext s = false /\ media = Granted tracks (ContextThrow name)))) ->
  snd (startCapture supported media s) = Thrown (errorMessageFor name) /\
  error (fst (startCapture supported media s)) = Some (errorMessageFor name) /\
  isCapturing (fst (startCapture supported media s)) = false /\
  stream (fst (startCapture supported media s)) = stream s /\
  audioContext (fst (startCapture supported media s)) = audioContext s /\
  created (fst (startCapture supported media s)) = created s /\
  permissionState (fst (startCapture supported media s))
    = (if isOneOf name "NotAllowedError" "PermissionDeniedError"
       then "denied" else permissionState s) /\
  (supported = false \/ media = Refused name ->
   mediaStream (fst (startCapture supported media s)) = mediaStream s /\
   audioTracks (fst (startCapture supported media s)) = audioTracks s) /\
  (forall tracks after,
      supported = true -> media = Granted tracks after ->
      mediaStream (fst (startCapture supported media s)) = true /\
      audioTracks (fst (startCapture supported media s)) = tracks) /\
  (supported = false -> errorMessageFor name = "Failed to access microphone") /\
  (name = "NotAllowedError" \/ name = "PermissionDeniedError" ->
   errorMessageFor name
     = "Microphone access denied. Please grant permission and try again.") /\
  (name = "NotFoundError" \/ name = "DevicesNotFoundError" ->
   errorMessageFor name
     = "No microphone found. Please connect a microphone and try again.") /\
  (name = "NotReadableError" \/ name = "TrackStartError" ->
   errorMessageFor name = "Microphone is already in use by another application.") /\
  (name = "OverconstrainedError" \/ name = "ConstraintNotSatisfiedError" ->
   errorMessageFor name = "Your microphone does not support the required settings.") /\
  (name = "TypeError" ->
   errorMessageFor name = "Invalid configuration. Please refresh and try again.") /\
  (~ In name ["NotAllowedError"; "PermissionDeniedError"; "NotFoundError";
              "DevicesNotFoundError"; "NotReadableError"; "TrackStartError";
              "OverconstrainedError"; "ConstraintNotSatisfiedError"; "TypeError"] ->
   errorMessageFor name = "Failed to access microphone") /\
  NoDup ["Microphone access denied. Please grant permission and try again.";
         "No microphone found. Please connect a microphone and try again.";
         "Microphone is already in use by another application.";
         "Your microphone does not support the required settings.";
         "Invalid configuration. Please refresh and try again.";
         "Failed to access microphone"].
Proof.
  intros Hcase.
  assert (Hrun : exists t,
             startCapture supported media s = catchBlock name t /\
             stream t = stream s /\ audioContext t = audioContext s /\
             created t = created s /\ permissionState t = permissionState s /\
             (supported = false \/ media = Refused name ->
              mediaStream t = mediaStream s /\ audioTracks t = audioTracks s) /\
             (forall tracks after,
                 supported = true -> media = Granted tracks after ->
                 mediaStream t = true /\ audioTracks t = tracks)).
  { unfold startCapture.
    destruct Hcase as [[-> ->]|(-> & Hidle & [->|[(tracks & Htr & ->)|(tracks & Hctx & ->)]])];
      simpl; rewrite ?Hidle.
    - eexists; split; [reflexivity|]. simpl.
      do 4 (split; [reflexivity|]). split; [intros _; split; reflexivity|].
      intros tracks after Habs; discriminate Habs.
    - eexists; split; [reflexivity|]. simpl.
      do 4 (split; [reflexivity|]). split; [intros _; split; reflexivity|].
      intros tracks after _ Habs; discriminate Habs.
    - apply Nat.ltb_lt in Htr. rewrite Htr.
      eexists; split; [reflexivity|]. simpl.
      do 4 (split; [reflexivity|]). split; [intros [Habs|Habs]; discriminate Habs|].
      intros tracks' after _ Heq. injection Heq as -> _. split; reflexivity.
    - destruct (audioContext s) eqn:Hc; [discriminate Hctx|]. simpl.
      eexists; split; [reflexivity|]. simpl.
      split; [reflexivity|]. split; [exact Hc|]. do 2 (split; [reflexivity|]).
      split; [intros [Habs|Habs]; discriminate Habs|].
      intros tracks' after _ Heq. injection Heq as -> _. split; reflexivity. }
  destruct Hrun as (t & Hrun & Hst & Hctx & Hcr & Hps & Hrefs & Hheld).
  rewrite Hrun.
  destruct (catchBlock_spec name t) as (-> & -> & -> & -> & Hm & -> & -> & ->).
  destruct (catchBlock_refs name t) as (Htr & _ & _).
  rewrite Hm, Htr, Hps.
  destruct (errorMessageFor_classes name) as (C1 & C2 & C3 & C4 & C5 & C6).
  do 9 (split; [assumption || reflexivity|]).
  split.
  { intros ->. destruct Hcase as [[_ ->]|(Habs & _)]; [reflexivity|discriminate]. }
  do 6 (split; [assumption|]).
  apply (bool_decide_unpack _). vm_compute. exact I.
Qed.

(** The statement at a refusal of permission, at a browser without
    [getUserMedia], and at an audio context whose constructor throws once
    the stream is granted. *)
Lemma startCapture_failure_witness :
  snd (startCapture true (Refused "NotAllowedError") init)
    = Thrown "Microphone access denied. Please grant permission and try again." /\
  permissionState (fst (startCapture true (Refused "NotAllowedError") init)) = "denied" /\
  snd (startCapture false (Granted 1 Completes) init) = Thrown "Failed to access microphone" /\
  snd (startCapture true (Granted 1 (ContextThrow "NotSupportedError")) init)
    = Thrown "Failed to access microphone" /\
  mediaStream (fst (startCapture true (Granted 1 (ContextThrow "NotSupportedError")) init))
    = true /\
  isCapturing (fst (startCapture true (Granted 1 (ContextThrow "NotSupportedError")) init))
    = false.
Proof.
  destruct (startCapture_failure init true (Refused "NotAllowedError") "NotAllowedError"
              ltac:(right; split; [reflexivity|split; [reflexivity|left; reflexivity]]))
    as (Hthrown & _ & _ & _ & _ & _ & Hperm & _).
  destruct (startCapture_failure init false (Granted 1 Completes) "Error"
              ltac:(left; split; reflexivity)) as (Hgeneric & _).
  destruct (startCapture_failure init true (Granted 1 (ContextThrow "NotSupportedError"))
              "NotSupportedError"
              ltac:(right; split; [reflexivity|split; [reflexivity|]];
                    right; right; exists 1%nat; split; reflexivity))
    as (Hlate & _ & Hcap & _ & _ & _ & _ & _ & Hheld & _).
  destruct (Hheld 1%nat (ContextThrow "NotSupportedError") eq_refl eq_refl) as [Hm _].
  split; [exact Hthrown|]. split; [exact Hperm|]. split; [exact Hgeneric|].
  split; [exact Hlate|]. split; [exact Hm|exact Hcap].
Defined.

Lemma startCapture_contexts (supported : bool) (media : UserMedia) (s : State) :
  let s' := fst (startCapture supported media s) in
  closed s' = closed s /\ closeTimers s' = closeTimers s /\
  ((audioContext s' = audioContext s /\ created s' = created s) \/
   (audioContext s = false /\ audioContext s' = true /\ created s' = S (created s) /\
    mediaStream s' = true)) /\
  (mediaStream s = true -> mediaStream s' = true).
Proof.
  destruct s as [st er ic ps ctx ms tr ti cr cl].
  unfold startCapture, contextAndState, catchBlock; simpl.
  destruct supported; simpl; [|repeat split; auto].
  destruct (ic && ms); simpl; [repeat split; auto|].
  destruct media as [tracks [|name|name]|name]; simpl;
    try destruct (0 <? tracks)%nat; try destruct ctx; simpl;
    try destruct (isOneOf name "NotAllowedError" "PermissionDeniedError"); simpl;
    repeat split; auto 10.
Qed.

(** X21. Tearing down the capture.  Each audio context the hook creates
    is closed at most once, however often [stopCapture] runs and however
    many of its timers expire; a context that outlives its stream always
    has a close pending; and a second [stopCapture] leaves the stream, the
    tracks and the state cells exactly as the first one did. *)
Theorem stopCapture_releases_once (s : State) :
  reachable s ->
  (closed s + (if audioContext s then 1 else 0) = created s)%nat /\
  (audioContext s = true -> mediaStream s = false -> (0 < closeTimers s)%nat) /\
  stream (stopCapture (stopCapture s)) = stream (stopCapture s) /\
  mediaStream (stopCapture (stopCapture s)) = mediaStream (stopCapture s) /\
  audioTracks (stopCapture (stopCapture s)) = audioTracks (stopCapture s) /\
  isCapturing (stopCapture (stopCapture s)) = isCapturing (stopCapture s) /\
  error (stopCapture (stopCapture s)) = error (stopCapture s) /\
  closed (stopCapture (stopCapture s)) = closed s /\
  stream (stopCapture s) = false /\ mediaStream (stopCapture s) = false /\
  audioTracks (stopCapture s) = 0%nat /\ isCapturing (stopCapture s) = false.
Proof.
  intros Hs.
  assert (Hinv : (closed s + (if audioContext s then 1 else 0) = created s)%nat /\
                 (audioContext s = true -> mediaStream s = false ->
                  (0 < closeTimers s)%nat)).
  { induction Hs as [|s e Hs [IH1 IH2]]; [split; [reflexivity|discriminate]|].
    destruct e as [supported media| | |]; simpl.
    - destruct (startCapture_contexts supported media s)
        as (Hcl & Hti & [[Hctx Hcr]|(Hold & Hnew & Hcr & Hm)] & Hkeep);
        cbv zeta in *.
      + rewrite Hcl, Hti, Hctx, Hcr. split; [exact IH1|].
        intros Hc Hm. apply IH2; [exact Hc|].
        destruct (mediaStream s) eqn:Hms; [|reflexivity].
        rewrite (Hkeep eq_refl) in Hm. discriminate.
      + rewrite Hcl, Hnew, Hcr. rewrite Hold in IH1. split; [lia|].
        intros _ Habs. rewrite Hm in Habs. discriminate.
    - unfold stopCapture. clear Hs.
      destruct s as [st er ic ps ctx ms tr ti cr cl]; simpl in *.
      destruct (0 <? tr)%nat, ms, ctx; simpl in *; split; try lia; intros;
        try discriminate; lia.
    - unfold stopCapture. clear Hs.
      destruct s as [st er ic ps ctx ms tr ti cr cl]; simpl in *.
      destruct (0 <? tr)%nat, ms, ctx; simpl in *; split; try lia; intros;
        try discriminate; lia.
    - unfold closeTimerFire. clear Hs.
      destruct s as [st er ic ps ctx ms tr ti cr cl]; simpl in *.
      destruct ti as [|n]; [split; assumption|].
      simpl. destruct ctx; simpl in *; split; try lia; intros; discriminate. }
  destruct Hinv as [H1 H2]. split; [exact H1|]. split; [exact H2|].
  unfold stopCapture. clear Hs H1 H2.
  destruct s as [st er ic ps ctx ms tr ti cr cl]; simpl.
  destruct tr, ms, ctx; simpl; repeat split.
Qed.

Lemma stopCapture_releases_once_witness :
  (closed (step (step (step (step init (StartCapture true (Granted 1 Completes))) StopCapture)
                   StopCapture) CloseTimerFire) <= 1)%nat.
Proof.
  destruct (stopCapture_releases_once
              (step (step (step (step init (StartCapture true (Granted 1 Completes))) StopCapture)
                       StopCapture) CloseTimerFire)
              ltac:(repeat apply reachable_step; apply reachable_init)) as [Hinv _].
  vm_compute in Hinv. vm_compute. lia.
Defined.

End AudioCaptureFacts.
